(** * company-scraper-api: the logo and social-profile extraction pipeline

    A shallow embedding of [app.js], with the proofs of the properties
    that its specification states.

    Conventions of the model.
    - A JavaScript string is a [string]; a character stands for one code
      unit below 256 (the Latin-1 range), which is where the built-ins
      [trim] and [toLowerCase] are modelled.
    - A JavaScript number that holds an integer is a [Z].
    - [undefined] and [null] are [None].
    - An exception is the [Throw] outcome of the [Exc] type; the network
      is an explicit state threaded through every [fetch].
    - The libraries the program calls (the URL class of the runtime, the
      HTTP client, the HTML parser) are interfaces; the program is
      modelled over any implementation of them. *)

From Stdlib Require Import String Ascii List ZArith Lia Bool.
From Stdlib Require Import Permutation Sorted.
Import ListNotations.

Open Scope string_scope.
Open Scope Z_scope.

(* ------------------------------------------------------------------ *)
(** ** String built-ins of the language *)

Module JS.

(** White space and line terminators with a code below 256: TAB, LF,
    VT, FF, CR, SPACE and NBSP. *)
Definition isWhiteSpace (c : ascii) : bool :=
  let n := nat_of_ascii c in
  (((9 <=? n) && (n <=? 13)) || (n =? 32) || (n =? 160))%nat.

(** Removal of the leading, and of the trailing, characters of a
    class. *)
Fixpoint stripStart (p : ascii -> bool) (s : string) : string :=
  match s with
  | EmptyString => EmptyString
  | String c s' => if p c then stripStart p s' else s
  end.

Fixpoint stripEnd (p : ascii -> bool) (s : string) : string :=
  match s with
  | EmptyString => EmptyString
  | String c s' =>
      match stripEnd p s' with
      | EmptyString => if p c then EmptyString else String c EmptyString
      | r => String c r
      end
  end.

(** [String.prototype.trim] *)
Definition trim (s : string) : string :=
  stripEnd isWhiteSpace (stripStart isWhiteSpace s).

(** Lower-casing of one code unit below 256: [A-Z], and the Latin-1
    capitals U+00C0..U+00DE except the multiplication sign U+00D7. *)
Definition lowerChar (c : ascii) : ascii :=
  let n := nat_of_ascii c in
  if (((65 <=? n) && (n <=? 90))
      || ((192 <=? n) && (n <=? 222) && negb (n =? 215)))%nat
  then ascii_of_nat (n + 32)
  else c.

(** [String.prototype.toLowerCase] *)
Fixpoint toLowerCase (s : string) : string :=
  match s with
  | EmptyString => EmptyString
  | String c s' => String (lowerChar c) (toLowerCase s')
  end.

(** [s.startsWith(p)] *)
Fixpoint startsWith (s p : string) : bool :=
  match p, s with
  | EmptyString, _ => true
  | String _ _, EmptyString => false
  | String b p', String a s' => Ascii.eqb a b && startsWith s' p'
  end.

(** [s.includes(p)] *)
Fixpoint includes (s p : string) : bool :=
  startsWith s p ||
  match s with
  | EmptyString => false
  | String _ s' => includes s' p
  end.

(** [s.endsWith(p)] *)
Fixpoint endsWith (s p : string) : bool :=
  String.eqb s p ||
  match s with
  | EmptyString => false
  | String _ s' => endsWith s' p
  end.

(** Truthiness of a string-or-undefined value: [undefined], [null] and
    the empty string are falsy. *)
Definition truthy (v : option string) : bool :=
  match v with
  | None => false
  | Some s => negb (String.eqb s "")
  end.

(** [v || ''] *)
Definition orEmpty (v : option string) : string :=
  if truthy v then match v with Some s => s | None => "" end else "".

(** [Array.prototype.sort(compareFn)]: the language requires the sort
    to be stable, so for a consistent comparator its result is the one
    given by stable insertion: each element, in the order of the array,
    goes in front of the first element it compares strictly before. *)
Section Sort.
Context {A : Type} (compareFn : A -> A -> Z).

Fixpoint insert (x : A) (l : list A) : list A :=
  match l with
  | [] => [x]
  | y :: l' => if compareFn y x <=? 0 then y :: insert x l' else x :: l
  end.

Definition sort (l : list A) : list A :=
  fold_left (fun acc x => insert x acc) l [].

End Sort.

End JS.

(* ------------------------------------------------------------------ *)
(** ** Configuration constants *)

Definition MAX_LOGO_BYTES : Z := 2 * 1024 * 1024.

Inductive Platform : Type :=
| facebook | linkedin | twitter | youtube | discord
| instagram | pinterest | snapchat | tiktok.

Definition Platform_eqb (a b : Platform) : bool :=
  match a, b with
  | facebook, facebook | linkedin, linkedin | twitter, twitter
  | youtube, youtube | discord, discord | instagram, instagram
  | pinterest, pinterest | snapchat, snapchat | tiktok, tiktok => true
  | _, _ => false
  end.

(** [Object.entries(SOCIAL_DOMAINS)], in insertion order. *)
Definition SOCIAL_DOMAINS : list (Platform * list string) :=
  [ (facebook, ["facebook.com"]);
    (linkedin, ["linkedin.com"]);
    (twitter, ["twitter.com"; "x.com"]);
    (youtube, ["youtube.com"; "youtu.be"]);
    (discord, ["discord.com"]);
    (instagram, ["instagram.com"]);
    (pinterest, ["pinterest.com"]);
    (snapchat, ["snapchat.com"]);
    (tiktok, ["tiktok.com"]) ].

(** The object with one nullable field per platform. *)
Record SocialProfiles : Type := mkSocialProfiles {
  sp_facebook : option string;
  sp_linkedin : option string;
  sp_twitter : option string;
  sp_youtube : option string;
  sp_discord : option string;
  sp_instagram : option string;
  sp_pinterest : option string;
  sp_snapchat : option string;
  sp_tiktok : option string
}.

(** [emptySocialProfiles()] *)
Definition emptySocialProfiles : SocialProfiles :=
  mkSocialProfiles None None None None None None None None None.

(** [found[key]] *)
Definition sp_get (found : SocialProfiles) (key : Platform) : option string :=
  match key with
  | facebook => sp_facebook found
  | linkedin => sp_linkedin found
  | twitter => sp_twitter found
  | youtube => sp_youtube found
  | discord => sp_discord found
  | instagram => sp_instagram found
  | pinterest => sp_pinterest found
  | snapchat => sp_snapchat found
  | tiktok => sp_tiktok found
  end.

(** [found[key] = v] *)
Definition sp_set (found : SocialProfiles) (key : Platform) (v : option string)
  : SocialProfiles :=
  match found with
  | mkSocialProfiles fb li tw yt di ig pn sn tk =>
      match key with
      | facebook => mkSocialProfiles v li tw yt di ig pn sn tk
      | linkedin => mkSocialProfiles fb v tw yt di ig pn sn tk
      | twitter => mkSocialProfiles fb li v yt di ig pn sn tk
      | youtube => mkSocialProfiles fb li tw v di ig pn sn tk
      | discord => mkSocialProfiles fb li tw yt v ig pn sn tk
      | instagram => mkSocialProfiles fb li tw yt di v pn sn tk
      | pinterest => mkSocialProfiles fb li tw yt di ig v sn tk
      | snapchat => mkSocialProfiles fb li tw yt di ig pn v tk
      | tiktok => mkSocialProfiles fb li tw yt di ig pn sn v
      end
  end.

(* ------------------------------------------------------------------ *)
(** ** Scoring of an image element *)

Definition bonus (b : bool) (points : Z) : Z := if b then points else 0.

(** [scoreImageCandidate({ src, alt, id, cls })] *)
Definition scoreImageCandidate (src alt id cls : string) : Z :=
  let score := 0 in
  let haystack := (src ++ " " ++ alt ++ " " ++ id ++ " " ++ cls)%string in
  let score := if JS.includes haystack "logo" then score + 10 else score in
  let score := if JS.includes haystack "brand" then score + 4 else score in
  let score := if JS.includes haystack "header" || JS.includes haystack "navbar"
               then score + 2 else score in
  let score := if JS.includes haystack "site" || JS.includes haystack "main"
               then score + 1 else score in
  let score := if JS.includes src "/logo." then score + 5 else score in
  score.

(* ------------------------------------------------------------------ *)
(** ** Interfaces of the libraries the program calls *)

(** The [URL] class of the runtime.  [URL_new s] is [new URL(s)] and
    [URL_new_base s base] is [new URL(s, base)]; [None] stands for the
    [TypeError] that the constructor throws on an invalid URL. *)
Class URLApi : Type := {
  URL : Type;
  URL_new : string -> option URL;
  URL_new_base : string -> URL -> option URL;
  URL_toString : URL -> string;
  URL_hostname : URL -> string
}.

Definition isSlash (c : ascii) : bool :=
  Ascii.eqb c "/"%char || Ascii.eqb c "\"%char.

Fixpoint allChars (p : ascii -> bool) (s : string) : bool :=
  match s with
  | EmptyString => true
  | String c s' => p c && allChars p s'
  end.

(** The reference starts with a scheme: a letter, then letters,
    digits, plus, minus and dots, then a colon. *)
Definition isAlpha (c : ascii) : bool :=
  let n := nat_of_ascii c in
  (((65 <=? n) && (n <=? 90)) || ((97 <=? n) && (n <=? 122)))%nat.

Definition schemeChar (c : ascii) : bool :=
  let n := nat_of_ascii c in
  isAlpha c || ((48 <=? n) && (n <=? 57) || (n =? 43) || (n =? 45) || (n =? 46))%nat.

Fixpoint schemeEnds (s : string) : bool :=
  match s with
  | EmptyString => false
  | String c s' =>
      if Ascii.eqb c ":"%char then true
      else if schemeChar c then schemeEnds s' else false
  end.

Definition hasScheme (s : string) : bool :=
  match s with
  | EmptyString => false
  | String c s' => isAlpha c && schemeEnds s'
  end.

(** A relative reference: a reference that has no scheme and no
    authority of its own.  It is not empty, has no white space and no
    control character, does not start with a scheme, and does not start
    with two slashes (or backslashes, which the URL parser reads as
    slashes). *)
Definition isRelativeReference (href : string) : bool :=
  allChars (fun c => (32 <? nat_of_ascii c)%nat) href
  && negb (String.eqb href "")
  && negb (hasScheme href)
  && match href with
     | String a (String b _) => negb (isSlash a && isSlash b)
     | _ => true
     end.

(** What the URL standard guarantees and the proofs rely on. *)
Class URLLaws (api : URLApi) : Prop := {
  (** the empty string is not a URL *)
  URL_new_empty : URL_new "" = None;
  (** the serialisation of a URL parses again, to the same host *)
  URL_reparse : forall u : URL,
      exists u', URL_new (URL_toString u) = Some u'
                 /\ URL_hostname u' = URL_hostname u;
  (** a relative reference resolves, and inherits the host of a base
      that has one *)
  URL_relative : forall (href : string) (base : URL),
      isRelativeReference href = true ->
      URL_hostname base <> "" ->
      exists u, URL_new_base href base = Some u
                /\ URL_hostname u = URL_hostname base
}.

(** An element of the parsed page: its tag name and its attributes. *)
Record Element : Type := mkElement {
  tagName : string;
  attribs : list (string * string)
}.

(** The parsed page, as the sequence of its elements in document
    order, which is the order in which a selection is traversed. *)
Definition Document : Type := list Element.

(** [$(el).attr(name)]: the value of the attribute, or [undefined]. *)
Fixpoint lookupAttr (name : string) (l : list (string * string))
  : option string :=
  match l with
  | [] => None
  | (k, v) :: l' => if String.eqb k name then Some v else lookupAttr name l'
  end.

Definition attr (el : Element) (name : string) : option string :=
  lookupAttr name (attribs el).

(** [$('img')] *)
Definition select_img (doc : Document) : list Element :=
  filter (fun el => String.eqb (tagName el) "img") doc.

(** [$('a[href]')] *)
Definition select_a_href (doc : Document) : list Element :=
  filter (fun el => String.eqb (tagName el) "a"
                    && match attr el "href" with Some _ => true | None => false end)
         doc.

(** An HTTP response as far as the program reads it: [res.ok], the
    [content-type] header ([None] when absent) and the body ([None]
    when reading it fails). *)
Record Response : Type := mkResponse {
  res_ok : bool;
  res_contentType : option string;
  res_body : option string
}.

Inductive FetchOutcome : Type :=
| NetworkError
| Responded (r : Response).

(* ------------------------------------------------------------------ *)
(** ** Results *)

Record Logo : Type := mkLogo {
  logo_url : string;
  logo_size : Z;
  logo_contentType : string;
  logo_data : string
}.

(** The object returned by [downloadAndValidateImage]; a field that the
    returned object literal does not have is [None]. *)
Record LogoCheck : Type := mkLogoCheck {
  lc_ok : bool;
  lc_tooLarge : option bool;
  lc_reason : option string;
  lc_size : option Z;
  lc_logo : option Logo
}.

Record Candidate : Type := mkCandidate {
  cand_url : string;
  cand_score : Z
}.

(** The object returned by [fetchCompanyLogo]. *)
Record ExtractionResult : Type := mkResult {
  success : bool;
  message : string;
  logo : option Logo;
  socialProfiles : option SocialProfiles
}.

(* ------------------------------------------------------------------ *)
(** ** Exceptions and the network state *)

Inductive Exc (A : Type) : Type :=
| Ret (a : A)
| Throw (err : string).
Arguments Ret {A} a.
Arguments Throw {A} err.

Section Pipeline.

Context {api : URLApi}.
(** The state of the outside world, and what an HTTP GET (redirects
    followed) observes and changes in it. *)
Variable World : Type.
Variable http_get : string -> World -> FetchOutcome * World.
(** [cheerio.load] *)
Variable cheerio_load : string -> Document.

(** The network as the program sees it: the world, and the URLs
    requested so far, oldest first. *)
Record Net : Type := mkNet {
  net_world : World;
  net_requests : list string
}.

(** A computation that may throw and may use the network.  The state
    survives a throw: a request that was sent stays sent. *)
Definition M (A : Type) : Type := Net -> Exc A * Net.

Definition ret {A} (a : A) : M A := fun n => (Ret a, n).

Definition throw {A} (err : string) : M A := fun n => (Throw err, n).

Definition bind {A B} (m : M A) (k : A -> M B) : M B :=
  fun n => match m n with
           | (Ret a, n') => k a n'
           | (Throw e, n') => (Throw e, n')
           end.

(** [try { body } catch (err) { handler }] *)
Definition tryCatch {A} (body : M A) (handler : string -> M A) : M A :=
  fun n => match body n with
           | (Ret a, n') => (Ret a, n')
           | (Throw e, n') => handler e n'
           end.

Definition liftExc {A} (x : Exc A) : M A := fun n => (x, n).

Notation "x <- m ;; k" := (bind m (fun x => k))
  (at level 61, m at next level, right associativity).

(** [await fetch(url, { redirect: 'follow' })] *)
Definition fetch (url : string) : M Response :=
  fun n =>
    let (o, w) := http_get url (net_world n) in
    let n' := mkNet w (net_requests n ++ [url]) in
    match o with
    | NetworkError => (Throw "FetchError", n')
    | Responded r => (Ret r, n')
    end.

(** [await res.text()] and [await res.buffer()] *)
Definition readBody (res : Response) : M string :=
  match res_body res with
  | Some b => ret b
  | None => throw "FetchError"
  end.

(** [downloadAndValidateImage(imageUrl)] *)
Definition downloadAndValidateImage (imageUrl : string) : M LogoCheck :=
  tryCatch
    (res <- fetch imageUrl ;;
     if negb (res_ok res) then
       ret (mkLogoCheck false None (Some "fetch_failed") None None)
     else
       let contentType := JS.toLowerCase (JS.orEmpty (res_contentType res)) in
       let isJpeg := JS.startsWith contentType "image/jpeg"
                     || JS.startsWith contentType "image/jpg" in
       let isPng := JS.startsWith contentType "image/png" in
       if negb isJpeg && negb isPng then
         ret (mkLogoCheck false None (Some "unsupported_type") None None)
       else
         buffer <- readBody res ;;
         let size := Z.of_nat (String.length buffer) in
         if size >=? MAX_LOGO_BYTES then
           ret (mkLogoCheck false (Some true) (Some "too_large") (Some size) None)
         else
           ret (mkLogoCheck true (Some false) None None
                  (Some (mkLogo imageUrl size contentType buffer))))
    (fun _ => ret (mkLogoCheck false None (Some "download_error") None None)).

(** The test [domains.some(...)] on the host name. *)
Definition hostMatches (hostname : string) (domains : list string) : bool :=
  existsb (fun domain => String.eqb hostname domain
                         || JS.endsWith hostname ("." ++ domain)) domains.

(** The body of the loop [for (const [key, domains] of ...)]. *)
Definition classifyEntry (absolute hostname : string) (found : SocialProfiles)
           (entry : Platform * list string) : SocialProfiles :=
  let '(key, domains) := entry in
  if JS.truthy (sp_get found key) then found
  else if hostMatches hostname domains
       then sp_set found key (Some absolute)
       else found.

Definition classifyHost (absolute hostname : string) (found : SocialProfiles)
  : SocialProfiles :=
  fold_left (classifyEntry absolute hostname) SOCIAL_DOMAINS found.

(** The callback of [$('a[href]').each]. *)
Definition visitAnchor (baseUrl : URL) (found : SocialProfiles) (el : Element)
  : SocialProfiles :=
  let href := attr el "href" in
  if negb (JS.truthy href) then found
  else
    match URL_new_base (JS.orEmpty href) baseUrl with
    | None => found
    | Some u =>
        let absolute := URL_toString u in
        match URL_new absolute with
        | None => found
        | Some u' =>
            let hostname := JS.toLowerCase (URL_hostname u') in
            classifyHost absolute hostname found
        end
    end.

(** [extractSocialProfiles($, baseUrl)] *)
Definition extractSocialProfiles (doc : Document) (baseUrl : URL)
  : SocialProfiles :=
  fold_left (visitAnchor baseUrl) (select_a_href doc) emptySocialProfiles.

(** [/\.(jpe?g|png)(\?|#|$)/.test(s)] *)
Definition extEnd (s : string) : bool :=
  match s with
  | EmptyString => true
  | String c _ => Ascii.eqb c "?"%char || Ascii.eqb c "#"%char
  end.

Definition extHere (s : string) : bool :=
  match s with
  | String "." (String "j" (String "p" (String "g" r))) => extEnd r
  | String "." (String "j" (String "p" (String "e" (String "g" r)))) => extEnd r
  | String "." (String "p" (String "n" (String "g" r))) => extEnd r
  | _ => false
  end.

Fixpoint hasImageExtension (s : string) : bool :=
  extHere s ||
  match s with
  | EmptyString => false
  | String _ s' => hasImageExtension s'
  end.

(** The score of an image element whose lower-cased source is
    [lowerSrc]: the attributes are read and lower-cased, then scored. *)
Definition elementScore (lowerSrc : string) (el : Element) : Z :=
  let alt := JS.toLowerCase (JS.orEmpty (attr el "alt")) in
  let id := JS.toLowerCase (JS.orEmpty (attr el "id")) in
  let cls := JS.toLowerCase (JS.orEmpty (attr el "class")) in
  scoreImageCandidate lowerSrc alt id cls.

(** The callback of [$('img').each], run over the selection: the
    candidates collected so far are extended, or the constructor of
    the absolute URL throws and the traversal is abandoned. *)
Fixpoint scanImages (parsedUrl : URL) (imgs : list Element)
         (candidates : list Candidate) : Exc (list Candidate) :=
  match imgs with
  | [] => Ret candidates
  | el :: rest =>
      let src := JS.trim (JS.orEmpty (attr el "src")) in
      if String.eqb src "" || JS.startsWith src "data:" then
        scanImages parsedUrl rest candidates
      else
        let lowerSrc := JS.toLowerCase src in
        if negb (hasImageExtension lowerSrc) then
          scanImages parsedUrl rest candidates
        else
          let score := elementScore lowerSrc el in
          match URL_new_base src parsedUrl with
          | None => Throw "TypeError: Invalid URL"
          | Some u =>
              scanImages parsedUrl rest
                (candidates ++ [mkCandidate (URL_toString u) score])
          end
  end.

Definition couldNotIdentify (sp : SocialProfiles) : ExtractionResult :=
  mkResult false "could not identify logo" None (Some sp).

(** [candidates.sort((a, b) => b.score - a.score)] *)
Definition byScoreDesc (a b : Candidate) : Z := cand_score b - cand_score a.

(** Truthiness of a boolean-or-undefined value. *)
Definition isTrue (v : option bool) : bool :=
  match v with Some true => true | _ => false end.

(** The loop [for (const candidate of candidates)]; the result is
    [chosenResult], which stays [null] when no candidate decides. *)
Fixpoint validateCandidates (socialProfiles : SocialProfiles)
         (candidates : list Candidate) : M (option ExtractionResult) :=
  match candidates with
  | [] => ret None
  | candidate :: rest =>
      logoCheck <- downloadAndValidateImage (cand_url candidate) ;;
      match lc_ok logoCheck && negb (isTrue (lc_tooLarge logoCheck)),
            lc_logo logoCheck with
      | true, Some l =>
          ret (Some (mkResult true "OK" (Some l) (Some socialProfiles)))
      | _, _ =>
          if isTrue (lc_tooLarge logoCheck) then
            ret (Some (mkResult false "logo greater than image limit" None
                         (Some socialProfiles)))
          else validateCandidates socialProfiles rest
      end
  end.

(** The [try] block of [fetchCompanyLogo]. *)
Definition fetchAndExtract (parsedUrl : URL) : M ExtractionResult :=
  let canonicalUrl := URL_toString parsedUrl in
  pageRes <- fetch canonicalUrl ;;
  if negb (res_ok pageRes) then
    ret (couldNotIdentify emptySocialProfiles)
  else
    html <- readBody pageRes ;;
    let doc := cheerio_load html in
    let socialProfiles := extractSocialProfiles doc parsedUrl in
    candidates <- liftExc (scanImages parsedUrl (select_img doc) []) ;;
    match candidates with
    | [] => ret (couldNotIdentify socialProfiles)
    | _ :: _ =>
        let candidates := JS.sort byScoreDesc candidates in
        chosenResult <- validateCandidates socialProfiles candidates ;;
        match chosenResult with
        | Some r => ret r
        | None => ret (couldNotIdentify socialProfiles)
        end
    end.

(** [fetchCompanyLogo(targetUrl)] *)
Definition fetchCompanyLogo (targetUrl : string) : M ExtractionResult :=
  if String.eqb targetUrl "" || String.eqb (JS.trim targetUrl) "" then
    ret (mkResult false "False" None None)
  else
    match URL_new targetUrl with
    | None => ret (mkResult false "Malformed URL" None None)
    | Some parsedUrl =>
        tryCatch (fetchAndExtract parsedUrl)
                 (fun _ => ret (couldNotIdentify emptySocialProfiles))
    end.

End Pipeline.

Arguments mkNet {World} _ _.
Arguments net_world {World} _.
Arguments net_requests {World} _.

(* ------------------------------------------------------------------ *)
(** ** A small implementation of the interfaces

    Enough of the three libraries to run the program on concrete pages.
    - URLs: [http] and [https] URLs whose authority is a plain host name
      (letters, digits, dots and hyphens; no credentials, no port); the
      path is kept as written: no percent-encoding, no simplification of
      dot segments.  Everything else is refused.
    - HTML: start tags with quoted attribute values; end tags and text
      are skipped.
    - HTTP: a fixed table from URL to response; a URL that is not in
      the table is unreachable. *)

Module Mini.

Record RawUrl : Type := mkRaw {
  raw_secure : bool;
  raw_host : string;
  raw_path : string
}.

Definition gt32 (c : ascii) : bool := (32 <? nat_of_ascii c)%nat.

Definition hostChar (c : ascii) : bool :=
  let n := nat_of_ascii c in
  (((97 <=? n) && (n <=? 122)) || ((48 <=? n) && (n <=? 57))
   || (n =? 45) || (n =? 46))%nat.

(** A URL of the implementation: the host is a plain host name, and
    the path starts with a slash and has no white space. *)
Definition wf (r : RawUrl) : bool :=
  negb (String.eqb (raw_host r) "")
  && allChars hostChar (raw_host r)
  && JS.startsWith (raw_path r) "/"
  && allChars gt32 (raw_path r).

Definition Url : Type := { r : RawUrl | wf r = true }.

Definition check (r : RawUrl) : option Url :=
  match wf r as b return wf r = b -> option Url with
  | true => fun H => Some (exist _ r H)
  | false => fun _ => None
  end eq_refl.

Fixpoint takeWhile (p : ascii -> bool) (s : string) : string :=
  match s with
  | EmptyString => EmptyString
  | String c s' => if p c then String c (takeWhile p s') else EmptyString
  end.

Fixpoint dropWhile (p : ascii -> bool) (s : string) : string :=
  match s with
  | EmptyString => EmptyString
  | String c s' => if p c then dropWhile p s' else s
  end.

Fixpoint skip (n : nat) (s : string) : string :=
  match n, s with
  | S n', String _ s' => skip n' s'
  | _, _ => s
  end.

Definition isQuery (c : ascii) : bool := Ascii.eqb c "?"%char.

Definition isHash (c : ascii) : bool := Ascii.eqb c "#"%char.

Definition inHost (c : ascii) : bool :=
  negb (isSlash c || isQuery c || isHash c).

(** The host, up to the first slash, question mark or hash, and the
    rest, which is the path with its query and fragment. *)
Definition parseAuthority (secure : bool) (s : string) : option Url :=
  let host := takeWhile inHost s in
  let path := match dropWhile inHost s with
              | EmptyString => "/"
              | String c rest' as rest =>
                  if isSlash c then String "/" rest' else String "/" rest
              end in
  check (mkRaw secure (JS.toLowerCase host) path).

Definition parseAbsolute (s : string) : option Url :=
  if JS.startsWith s "https://" then parseAuthority true (skip 8 s)
  else if JS.startsWith s "http://" then parseAuthority false (skip 7 s)
  else None.

(** Removal of the leading and trailing control characters and
    spaces. *)
Definition stripC0 (s : string) : string :=
  JS.stripEnd (fun c => negb (gt32 c)) (JS.stripStart (fun c => negb (gt32 c)) s).

(** [new URL(s)] *)
Definition new (s : string) : option Url :=
  let s := stripC0 s in
  if allChars gt32 s then parseAbsolute s else None.

(** The directory of a path: everything up to its last slash. *)
Fixpoint dirOf (s : string) : string :=
  match s with
  | EmptyString => EmptyString
  | String c s' =>
      match dirOf s' with
      | EmptyString => if Ascii.eqb c "/"%char then "/" else EmptyString
      | d => String c d
      end
  end.

(** The path, query and fragment of a relative reference [s] resolved
    against a base with path, query and fragment [basePath]. *)
Definition relativePath (basePath s : string) : string :=
  match s with
  | EmptyString => takeWhile (fun c => negb (isHash c)) basePath
  | String c rest =>
      if isSlash c then String "/" rest
      else if isQuery c then
        takeWhile (fun c => negb (isQuery c || isHash c)) basePath ++ s
      else if isHash c then
        takeWhile (fun c => negb (isHash c)) basePath ++ s
      else
        dirOf (takeWhile (fun c => negb (isQuery c || isHash c)) basePath) ++ s
  end.

(** [new URL(href, base)] *)
Definition new_base (href : string) (base : Url) : option Url :=
  let s := stripC0 href in
  let b := proj1_sig base in
  if isRelativeReference s then
    check (mkRaw (raw_secure b) (raw_host b) (relativePath (raw_path b) s))
  else if negb (allChars gt32 s) then None
  else
    match s with
    | String c (String d rest) =>
        if isSlash c && isSlash d then parseAuthority (raw_secure b) rest
        else parseAbsolute s
    | _ => parseAbsolute s
    end.

Definition toString (u : Url) : string :=
  let r := proj1_sig u in
  (if raw_secure r then "https://" else "http://") ++ raw_host r ++ raw_path r.

Definition hostname (u : Url) : string := raw_host (proj1_sig u).

#[export] Instance api : URLApi := {
  URL := Url;
  URL_new := new;
  URL_new_base := new_base;
  URL_toString := toString;
  URL_hostname := hostname
}.

(** *** HTML *)

Inductive Lexer : Type :=
| InText
| InEndTag
| InTagName (name : string)
| InTag (name : string) (attrs : list (string * string))
| InAttrName (name : string) (attrs : list (string * string)) (key : string)
| AfterEquals (name : string) (attrs : list (string * string)) (key : string)
| InValue (quote : ascii) (name : string) (attrs : list (string * string))
          (key value : string).

Definition snoc (s : string) (c : ascii) : string := s ++ String c EmptyString.

Definition isBlank (c : ascii) : bool := negb (gt32 c).

(** The double and the single quote. *)
Definition isQuote (c : ascii) : bool :=
  let n := nat_of_ascii c in ((n =? 34) || (n =? 39))%nat.

Fixpoint lex (st : Lexer) (s : string) : list Element :=
  match s with
  | EmptyString => []
  | String c s' =>
      match st with
      | InText =>
          if Ascii.eqb c "<"%char then lex (InTagName "") s' else lex InText s'
      | InEndTag =>
          if Ascii.eqb c ">"%char then lex InText s' else lex InEndTag s'
      | InTagName name =>
          if Ascii.eqb c "/"%char && String.eqb name "" then lex InEndTag s'
          else if Ascii.eqb c ">"%char then mkElement name [] :: lex InText s'
          else if isBlank c || Ascii.eqb c "/"%char then lex (InTag name []) s'
          else lex (InTagName (snoc name (JS.lowerChar c))) s'
      | InTag name attrs =>
          if Ascii.eqb c ">"%char then mkElement name attrs :: lex InText s'
          else if isBlank c || Ascii.eqb c "/"%char then lex (InTag name attrs) s'
          else lex (InAttrName name attrs (String (JS.lowerChar c) "")) s'
      | InAttrName name attrs key =>
          if Ascii.eqb c "="%char then lex (AfterEquals name attrs key) s'
          else if Ascii.eqb c ">"%char then
            mkElement name (attrs ++ [(key, "")]) :: lex InText s'
          else if isBlank c then lex (InTag name (attrs ++ [(key, "")])) s'
          else lex (InAttrName name attrs (snoc key (JS.lowerChar c))) s'
      | AfterEquals name attrs key =>
          if isQuote c then lex (InValue c name attrs key EmptyString) s'
          else lex (InTag name attrs) s'
      | InValue quote name attrs key value =>
          if Ascii.eqb c quote then lex (InTag name (attrs ++ [(key, value)])) s'
          else lex (InValue quote name attrs key (snoc value c)) s'
      end
  end.

(** [cheerio.load] *)
Definition load (html : string) : Document := lex InText html.

(** *** HTTP *)

Definition Web : Type := list (string * Response).

Fixpoint lookup (url : string) (web : Web) : option Response :=
  match web with
  | [] => None
  | (u, r) :: web' => if String.eqb u url then Some r else lookup url web'
  end.

Definition get (url : string) (web : Web) : FetchOutcome * Web :=
  match lookup url web with
  | Some r => (Responded r, web)
  | None => (NetworkError, web)
  end.

(** A body of [n] bytes. *)
Fixpoint bytes (n : nat) : string :=
  match n with
  | O => EmptyString
  | S n' => String "x" (bytes n')
  end.

Definition image (contentType : string) (size : Z) : Response :=
  mkResponse true (Some contentType) (Some (bytes (Z.to_nat size))).

Definition page (html : string) : Response :=
  mkResponse true (Some "text/html") (Some html).

(** The program over this implementation, from a network on which no
    request has been sent. *)
Definition run (web : Web) (targetUrl : string)
  : Exc ExtractionResult * Net Web :=
  fetchCompanyLogo Web get load targetUrl (mkNet web []).

End Mini.

(* ------------------------------------------------------------------ *)
(** ** Definitions used to state the properties *)

(** *** Scoring *)

(** The score that [scanImages] gives to an image element: the score
    of its trimmed, lower-cased source and lower-cased attributes. *)
Definition candidateScore (el : Element) : Z :=
  elementScore (JS.toLowerCase (JS.trim (JS.orEmpty (attr el "src")))) el.

(** The haystack of [scoreImageCandidate]. *)
Definition haystackOf (src alt id cls : string) : string :=
  src ++ " " ++ alt ++ " " ++ id ++ " " ++ cls.

(** An image element passes the filters of the scan: its trimmed source
    is not empty, is not a data URL, and has one of the extensions. *)
Definition qualifies (el : Element) : bool :=
  let src := JS.trim (JS.orEmpty (attr el "src")) in
  negb (String.eqb src "" || JS.startsWith src "data:")
  && hasImageExtension (JS.toLowerCase src).

Definition isSome {A : Type} (v : option A) : bool :=
  match v with Some _ => true | None => false end.

(** An image element passes the filters, and its source does not
    resolve to an absolute URL against the base. *)
Definition unresolvable {api : URLApi} (parsedUrl : URL) (el : Element) : bool :=
  qualifies el
  && negb (isSome (URL_new_base (JS.trim (JS.orEmpty (attr el "src"))) parsedUrl)).

(** A candidate sequence in descending order of score. *)
Definition descending (l : list Candidate) : Prop :=
  StronglySorted (fun a b => cand_score b <= cand_score a) l.

(** The candidates of one score, in the order of the sequence. *)
Definition withScore (z : Z) (l : list Candidate) : list Candidate :=
  filter (fun c => cand_score c =? z) l.

(** *** The image validator *)

(** The outcome of the image validator, in the words of the
    specification. *)
Inductive Verdict : Type :=
| Accepted (validated : Logo)
| Rejected (reason : string) (observedSize : option Z).

(** A content type that the validator lets through. *)
Definition acceptedPrefix (contentType : string) : bool :=
  JS.startsWith contentType "image/jpeg"
  || JS.startsWith contentType "image/jpg"
  || JS.startsWith contentType "image/png".

(** The content-type test of the specification: the header, read
    case-insensitively, starts with one of the three accepted types. *)
Definition acceptedContentType (header : option string) : bool :=
  acceptedPrefix (JS.toLowerCase (JS.orEmpty header)).

(** The validator as the specification describes it, as a function of
    what the HTTP GET of the image observes. *)
Definition validatorSpec (imageUrl : string) (o : FetchOutcome) : Verdict :=
  match o with
  | NetworkError => Rejected "download_error" None
  | Responded r =>
      if negb (res_ok r) then Rejected "fetch_failed" None
      else if negb (acceptedContentType (res_contentType r)) then
        Rejected "unsupported_type" None
      else
        match res_body r with
        | None => Rejected "download_error" None
        | Some body =>
            let size := Z.of_nat (String.length body) in
            if size <? 2 * 1024 * 1024 then
              Accepted (mkLogo imageUrl size
                          (JS.toLowerCase (JS.orEmpty (res_contentType r))) body)
            else Rejected "too_large" (Some size)
        end
  end.

(** The object by which [downloadAndValidateImage] reports a verdict. *)
Definition resultObject (v : Verdict) : LogoCheck :=
  match v with
  | Accepted l => mkLogoCheck true (Some false) None None (Some l)
  | Rejected reason size =>
      mkLogoCheck false
        (if String.eqb reason "too_large" then Some true else None)
        (Some reason) size None
  end.

(** The rejection reasons after which the orchestrator goes on. *)
Definition softReasons : list string :=
  ["fetch_failed"; "unsupported_type"; "download_error"].

(** *** The results of the orchestrator *)

Definition successResult (l : Logo) (sp : SocialProfiles) : ExtractionResult :=
  mkResult true "OK" (Some l) (Some sp).

Definition tooLargeResult (sp : SocialProfiles) : ExtractionResult :=
  mkResult false "logo greater than image limit" None (Some sp).

(** The two failures of input validation. *)
Definition emptyUrlResult : ExtractionResult :=
  mkResult false "False" None None.

Definition malformedUrlResult : ExtractionResult :=
  mkResult false "Malformed URL" None None.

(** The results that the program can return once the URL is
    normalised; each carries social profiles. *)
Inductive downstreamResult : ExtractionResult -> Prop :=
| ds_unidentified : forall sp, downstreamResult (couldNotIdentify sp)
| ds_too_large : forall sp, downstreamResult (tooLargeResult sp)
| ds_success : forall l sp,
    acceptedPrefix (logo_contentType l) = true ->
    downstreamResult (successResult l sp).

(** The result value is well formed: a success carries the message OK,
    a logo and the social profiles; a failure carries no logo and one
    of the four failure messages, with social profiles exactly when the
    failure is not one of the two input-validation failures. *)
Definition wellFormed (r : ExtractionResult) : bool :=
  if success r then
    String.eqb (message r) "OK" && isSome (logo r) && isSome (socialProfiles r)
  else
    negb (isSome (logo r))
    && (((String.eqb (message r) "False" || String.eqb (message r) "Malformed URL")
         && negb (isSome (socialProfiles r)))
        || ((String.eqb (message r) "could not identify logo"
             || String.eqb (message r) "logo greater than image limit")
            && isSome (socialProfiles r))).

(** The input is not blank: the first test of [fetchCompanyLogo] fails. *)
Definition notBlank (targetUrl : string) : bool :=
  negb (String.eqb targetUrl "" || String.eqb (JS.trim targetUrl) "").

(** *** Runs of the program *)

Section Runs.
Context {api : URLApi}.
Variable World : Type.
Variable http_get : string -> World -> FetchOutcome * World.
Variable cheerio_load : string -> Document.

(** The network after one more request. *)
Definition afterRequest (url : string) (n : Net World) : Net World :=
  mkNet (snd (http_get url (net_world n))) (net_requests n ++ [url]).

(** [softlyRejected n cs n']: validated one after the other from the
    network state [n], each candidate of [cs] is rejected for a reason
    other than its size, and the network is then in state [n']. *)
Inductive softlyRejected : Net World -> list Candidate -> Net World -> Prop :=
| softly_nil : forall n, softlyRejected n [] n
| softly_cons : forall n c lc n1 cs n2,
    downloadAndValidateImage World http_get (cand_url c) n = (Ret lc, n1) ->
    (exists reason, In reason softReasons /\ lc_reason lc = Some reason) ->
    softlyRejected n1 cs n2 ->
    softlyRejected n (c :: cs) n2.

(** [reachesValidation targetUrl n sp candidates n0]: on input
    [targetUrl] in network state [n], the program normalises the URL,
    fetches and parses the page, computes the social profiles [sp] and
    discovers the candidates [candidates] (in document order, at least
    one), and is then in network state [n0]. *)
Definition reachesValidation (targetUrl : string) (n : Net World)
           (sp : SocialProfiles) (candidates : list Candidate)
           (n0 : Net World) : Prop :=
  exists (parsedUrl : URL) (pageRes : Response) (html : string),
    notBlank targetUrl = true
    /\ URL_new targetUrl = Some parsedUrl
    /\ fst (http_get (URL_toString parsedUrl) (net_world n)) = Responded pageRes
    /\ res_ok pageRes = true
    /\ res_body pageRes = Some html
    /\ scanImages parsedUrl (select_img (cheerio_load html)) [] = Ret candidates
    /\ candidates <> []
    /\ sp = extractSocialProfiles (cheerio_load html) parsedUrl
    /\ n0 = afterRequest (URL_toString parsedUrl) n.

End Runs.

(** *** Social links *)

(** The domains of a platform in [SOCIAL_DOMAINS]. *)
Fixpoint lookupDomains (key : Platform) (entries : list (Platform * list string))
  : list string :=
  match entries with
  | [] => []
  | (k, domains) :: rest =>
      if Platform_eqb k key then domains else lookupDomains key rest
  end.

Definition domainsOf (key : Platform) : list string :=
  lookupDomains key SOCIAL_DOMAINS.

Section Anchors.
Context {api : URLApi}.

(** What [visitAnchor] computes for an anchor before it looks at the
    platforms: the absolute URL and the lower-cased host name, when the
    href is not empty and resolves. *)
Definition anchorTarget (baseUrl : URL) (el : Element) : option (string * string) :=
  let href := attr el "href" in
  if JS.truthy href then
    match URL_new_base (JS.orEmpty href) baseUrl with
    | None => None
    | Some u =>
        match URL_new (URL_toString u) with
        | None => None
        | Some u' => Some (URL_toString u, JS.toLowerCase (URL_hostname u'))
        end
    end
  else None.

(** The anchor matches the platform: the absolute URL of an anchor
    whose host name is one of the platform's domains or ends with a dot
    followed by one of them. *)
Definition anchorMatch (baseUrl : URL) (key : Platform) (el : Element)
  : option string :=
  match anchorTarget baseUrl el with
  | Some (absolute, hostname) =>
      if hostMatches hostname (domainsOf key) then Some absolute else None
  | None => None
  end.

(** The first anchor, in document order, that matches the platform. *)
Fixpoint firstMatch (baseUrl : URL) (key : Platform) (anchors : list Element)
  : option string :=
  match anchors with
  | [] => None
  | el :: rest =>
      match anchorMatch baseUrl key el with
      | Some absolute => Some absolute
      | None => firstMatch baseUrl key rest
      end
  end.

End Anchors.

(** A field of the social profiles is null or holds a non-empty
    string. *)
Definition wellFilled (found : SocialProfiles) : Prop :=
  forall key, sp_get found key = None \/ JS.truthy (sp_get found key) = true.

(* ------------------------------------------------------------------ *)
(** ** Concrete pages and sites *)

Module Sites.
Import Mini.

(** The URL https://shop.example/ *)
Definition shop : Url := exist _ (mkRaw true "shop.example" "/") eq_refl.

Definition threeImagesPage : string :=
  "<a href='https://m.facebook.com/acme'>f</a><img src='/img/photo.png'><img src='/img/brand.png'><img src='/img/logo.png'>".

(** A site whose page has three images, in document order: one that
    scores 0, one whose name holds the word brand (4), and one at
    /img/logo.png (15).  The logo is served as an HTML error page, the
    brand image is exactly 2 MiB large, and the photo is a small PNG. *)
Definition threeImages : Web :=
  [ ("https://shop.example/", page threeImagesPage);
    ("https://shop.example/img/logo.png",
     mkResponse true (Some "text/html") (Some "<h1>gone</h1>"));
    ("https://shop.example/img/brand.png", image "image/png" MAX_LOGO_BYTES);
    ("https://shop.example/img/photo.png", image "image/png" 10) ].

(** The candidates of that page, in document order. *)
Definition threeCandidates : list Candidate :=
  [ mkCandidate "https://shop.example/img/photo.png" 0;
    mkCandidate "https://shop.example/img/brand.png" 4;
    mkCandidate "https://shop.example/img/logo.png" 15 ].

Definition facebookOnly : SocialProfiles :=
  sp_set emptySocialProfiles facebook (Some "https://m.facebook.com/acme").

(** No site at all: every request fails. *)
Definition nowhere : Web := [].

(** A page whose only image is served with the content type
    image/jpg, and one whose image comes with a parameter. *)
Definition jpgSite : Web :=
  [ ("https://shop.example/", page "<img src='/logo.jpg'>");
    ("https://shop.example/logo.jpg", image "image/jpg" 10) ].

Definition charsetSite : Web :=
  [ ("https://shop.example/", page "<img src='/logo.png'>");
    ("https://shop.example/logo.png", image "Image/PNG; charset=binary" 10) ].

(** A page with a social link and two images: the source of the first
    has a space in its host, so it is not a URL; the second is a small
    PNG logo. *)
Definition brokenImagePage : string :=
  "<a href='https://m.facebook.com/acme'>f</a><img src='https://exa mple.com/logo.png'><img src='/img/logo.png'>".

Definition brokenImage : Web :=
  [ ("https://shop.example/", page brokenImagePage);
    ("https://shop.example/img/logo.png", image "image/png" 10) ].

(** A page with four social links, in document order. *)
Definition socialPage : string :=
  "<a href='https://m.facebook.com/acme'>a</a><a href='https://facebook.com/other'>b</a><a href='https://notfacebook.com/x'>c</a><a href='https://x.com/acme'>d</a>".

(** A page of a site that lives on facebook.com, with links of its own
    navigation in front of a link to another network. *)
Definition facebookPage : Url :=
  exist _ (mkRaw true "facebook.com" "/somepage") eq_refl.

Definition navigationPage : string :=
  "<a href='/about'>About</a><a href='careers'>Careers</a><a href='https://twitter.com/acme'>t</a>".

End Sites.

(* ------------------------------------------------------------------ *)
(** ** The HTTP service of [index.js] *)

(** [buffer.toString('base64')]: the base-64 encoding of RFC 4648, with
    padding.  A character of the buffer stands for one byte. *)
Module Base64.

(** The digit of a value below 64, in the alphabet A-Z a-z 0-9 + / *)
Definition digit (n : nat) : ascii :=
  (if n <? 26 then ascii_of_nat (65 + n)
   else if n <? 52 then ascii_of_nat (97 + (n - 26))
   else if n <? 62 then ascii_of_nat (48 + (n - 52))
   else if n =? 62 then "+"%char
   else "/"%char)%nat.

(** The padding character. *)
Definition pad : ascii := "="%char.

(** Three bytes give four digits; one or two bytes left at the end give
    two or three digits and padding. *)
Fixpoint encode (data : string) : string :=
  match data with
  | EmptyString => EmptyString
  | String a EmptyString =>
      let x := nat_of_ascii a in
      String (digit (x / 4))
        (String (digit (x mod 4 * 16))
           (String pad (String pad EmptyString)))
  | String a (String b EmptyString) =>
      let x := nat_of_ascii a in
      let y := nat_of_ascii b in
      String (digit (x / 4))
        (String (digit (x mod 4 * 16 + y / 16))
           (String (digit (y mod 16 * 4))
              (String pad EmptyString)))
  | String a (String b (String c rest)) =>
      let x := nat_of_ascii a in
      let y := nat_of_ascii b in
      let z := nat_of_ascii c in
      String (digit (x / 4))
        (String (digit (x mod 4 * 16 + y / 16))
           (String (digit (y mod 16 * 4 + z / 64))
              (String (digit (z mod 64)) (encode rest))))
  end%nat.

(** A character of the output alphabet. *)
Definition isDigitOrPad (c : ascii) : bool :=
  let n := nat_of_ascii c in
  (((65 <=? n) && (n <=? 90)) || ((97 <=? n) && (n <=? 122))
   || ((48 <=? n) && (n <=? 57)) || (n =? 43) || (n =? 47) || (n =? 61))%nat.

End Base64.

(** [serializeResult(result)]: the data of the logo of a success is
    replaced by its base-64 text.  The result is an object, and the data
    of a logo is a buffer, so both are truthy. *)
Definition serializeResult (result : ExtractionResult) : ExtractionResult :=
  if success result then
    match logo result with
    | Some l =>
        mkResult (success result) (message result)
          (Some (mkLogo (logo_url l) (logo_size l) (logo_contentType l)
                   (Base64.encode (logo_data l))))
          (socialProfiles result)
    | None => result
    end
  else result.

(** What [res.status(code).json(body)] sends. *)
Record HttpResponse : Type := mkHttpResponse {
  http_status : Z;
  http_json : ExtractionResult
}.

(** The two routes of the service that answer for a URL, and the
    request as far as they read it: [req.query.url] and [req.body.url],
    each absent or a string. *)
Inductive Route : Type :=
| GetLogo
| PostLogo.

Record Request : Type := mkRequest {
  req_query_url : option string;
  req_body_url : option string
}.

(** The first statement of each handler: [const url = req.query.url]
    in the handler of GET, [const url = req.body.url] in the one of
    POST. *)
Definition requestUrl (route : Route) (req : Request) : option string :=
  match route with
  | GetLogo => req_query_url req
  | PostLogo => req_body_url req
  end.

Section Service.
Context {api : URLApi}.
Variable World : Type.
Variable http_get : string -> World -> FetchOutcome * World.
Variable cheerio_load : string -> Document.

(** The rest of both handlers, which is the same text: the answer for
    the [url] that the handler has read. *)
Definition answerLogo (url : option string) : M World HttpResponse :=
  match url with
  | None => ret World (mkHttpResponse 400 (mkResult false "False" None None))
  | Some s =>
      if String.eqb s "" || String.eqb (JS.trim s) "" then
        ret World (mkHttpResponse 400 (mkResult false "False" None None))
      else
        bind World (fetchCompanyLogo World http_get cheerio_load s)
          (fun result => ret World (mkHttpResponse 200 (serializeResult result)))
  end.

(** [app.get('/logo', ...)] and [app.post('/logo', ...)] *)
Definition handle (route : Route) (req : Request) : M World HttpResponse :=
  let url := requestUrl route req in
  answerLogo url.

End Service.

(* ------------------------------------------------------------------ *)
(** ** Further definitions used to state the properties *)

(** The [url] of a request is missing or blank. *)
Definition blankUrl (url : option string) : bool :=
  match url with
  | None => true
  | Some s => String.eqb (JS.trim s) ""
  end.

(** The text that follows an extension in an image source: nothing, a
    query or a fragment. *)
Definition endsExtension (rest : string) : Prop :=
  rest = "" \/ exists rest', rest = String "?" rest' \/ rest = String "#" rest'.

(** The candidates of a sequence of image elements, in the order of
    the elements: the absolute URL of the trimmed source and the score,
    for each element whose source resolves. *)
Definition candidatesOf {api : URLApi} (parsedUrl : URL) (imgs : list Element)
  : list Candidate :=
  flat_map (fun el =>
              match URL_new_base (JS.trim (JS.orEmpty (attr el "src"))) parsedUrl with
              | Some u => [mkCandidate (URL_toString u) (candidateScore el)]
              | None => []
              end) imgs.

(** The largest number of characters of the base-64 text of a logo. *)
Definition MAX_DATA_CHARS : Z := 4 * ((MAX_LOGO_BYTES - 1 + 2) / 3).

(** *** More pages and sites *)

Module MoreSites.
Import Mini.

(** A site whose best candidate is served as an HTML page and whose
    second candidate is a small PNG image; a third image is there as
    well. *)
Definition fallback : Web :=
  [ ("https://shop.example/",
     page "<img src='/img/brand.png'><img src='/img/logo.png'><img src='/img/photo.png'>");
    ("https://shop.example/img/logo.png",
     mkResponse true (Some "text/html") (Some "<h1>gone</h1>"));
    ("https://shop.example/img/brand.png", image "image/png" 10);
    ("https://shop.example/img/photo.png", image "image/png" 12) ].

(** A page with a social link and no image that qualifies: a data URL
    and a GIF. *)
Definition noLogoPage : string :=
  "<a href='https://x.com/acme'>x</a><img src='data:image/png;base64,AAAA'><img src='/banner.gif'>".

Definition noLogo : Web :=
  [ ("https://shop.example/", page noLogoPage) ].

(** A site that answers with an error status and a page that has a
    social link and a logo. *)
Definition notFound : Web :=
  [ ("https://shop.example/",
     mkResponse false (Some "text/html")
       (Some "<a href='https://x.com/acme'>x</a><img src='/logo.png'>"));
    ("https://shop.example/logo.png", image "image/png" 10) ].

(** A site whose logo is the three bytes of the word Man. *)
Definition tiny : Web :=
  [ ("https://shop.example/", page "<img src='/logo.png'>");
    ("https://shop.example/logo.png",
     mkResponse true (Some "image/png") (Some "Man")) ].

(** A site whose only image is exactly 2 MiB large. *)
Definition oversized : Web :=
  [ ("https://shop.example/", page "<img src='/logo.png'>");
    ("https://shop.example/logo.png", image "image/png" MAX_LOGO_BYTES) ].

(** A page whose first link has a space in its host, so that it is
    not a URL, and the page without that link. *)
Definition brokenLinkPage : string :=
  "<a href='https://exa mple.com/'>bad</a><a href=''>empty</a><a href='https://x.com/acme'>x</a>".

Definition mendedLinkPage : string :=
  "<a href=''>empty</a><a href='https://x.com/acme'>x</a>".

(** Two halves of a page, each with social links. *)
Definition firstHalf : string :=
  "<a href='https://m.facebook.com/acme'>a</a><a href='https://x.com/acme'>b</a>".

Definition secondHalf : string :=
  "<a href='https://facebook.com/other'>c</a><a href='https://youtu.be/acme'>d</a>".

End MoreSites.

(* ------------------------------------------------------------------ *)
(** ** Facts about the string built-ins *)

Module JSFacts.
Import JS.

Lemma startsWith_app (s t p : string) :
  startsWith s p = true -> startsWith (s ++ t) p = true.
Proof.
  revert s; induction p as [|b p IH]; intros [|a s]; simpl;
    try reflexivity; try discriminate.
  - now destruct t.
  - intros H; apply andb_true_iff in H as [-> H]; simpl; auto.
Qed.

Lemma startsWith_self_app (p t : string) : startsWith (p ++ t) p = true.
Proof.
  induction p as [|b p IH]; simpl; [now destruct t|].
  now rewrite Ascii.eqb_refl.
Qed.

Lemma includes_app_l (s t p : string) :
  includes s p = true -> includes (s ++ t) p = true.
Proof.
  induction s as [|a s IH]; simpl.
  - rewrite orb_false_r. intros H.
    destruct p; [now destruct t | discriminate].
  - intros H; apply orb_true_iff in H as [H|H]; apply orb_true_iff.
    + left. now apply (startsWith_app (String a s)).
    + right; auto.
Qed.

Lemma includes_app_r (s t p : string) :
  includes t p = true -> includes (s ++ t) p = true.
Proof.
  induction s as [|a s IH]; simpl; auto.
  intros H. rewrite (IH H). apply orb_true_r.
Qed.

Lemma includes_startsWith (s p : string) :
  startsWith s p = true -> includes s p = true.
Proof. intros H; destruct s; cbn [includes]; rewrite H; reflexivity. Qed.

Lemma includes_infix (s t p : string) : includes (s ++ p ++ t) p = true.
Proof.
  apply includes_app_r, includes_startsWith, startsWith_self_app.
Qed.

Lemma isWhiteSpace_lowerChar (c : ascii) :
  isWhiteSpace (lowerChar c) = isWhiteSpace c.
Proof.
  destruct c as [[] [] [] [] [] [] [] []]; reflexivity.
Qed.

Lemma toLowerCase_empty (s : string) :
  toLowerCase s = EmptyString -> s = EmptyString.
Proof. destruct s; [reflexivity | discriminate]. Qed.

Lemma toLowerCase_stripStart (s : string) :
  toLowerCase (stripStart isWhiteSpace s)
  = stripStart isWhiteSpace (toLowerCase s).
Proof.
  induction s as [|c s IH]; simpl; [reflexivity|].
  rewrite isWhiteSpace_lowerChar.
  destruct (isWhiteSpace c); [exact IH | reflexivity].
Qed.

Lemma toLowerCase_stripEnd (s : string) :
  toLowerCase (stripEnd isWhiteSpace s)
  = stripEnd isWhiteSpace (toLowerCase s).
Proof.
  induction s as [|c s IH]; simpl; [reflexivity|].
  rewrite <- IH, isWhiteSpace_lowerChar.
  destruct (stripEnd isWhiteSpace s) as [|d r]; simpl.
  - destruct (isWhiteSpace c); reflexivity.
  - reflexivity.
Qed.

(** Lower-casing and trimming commute. *)
Lemma toLowerCase_trim (s : string) :
  toLowerCase (trim s) = trim (toLowerCase s).
Proof.
  unfold trim. now rewrite toLowerCase_stripEnd, toLowerCase_stripStart.
Qed.

End JSFacts.


(* ------------------------------------------------------------------ *)
(** ** Scoring *)

Lemma scoreImageCandidate_additive (src alt id cls : string) :
  let h := haystackOf src alt id cls in
  scoreImageCandidate src alt id cls
  = bonus (JS.includes h "logo") 10
    + bonus (JS.includes h "brand") 4
    + bonus (JS.includes h "header" || JS.includes h "navbar") 2
    + bonus (JS.includes h "site" || JS.includes h "main") 1
    + bonus (JS.includes src "/logo.") 5.
Proof.
  unfold scoreImageCandidate, haystackOf, bonus; simpl.
  repeat match goal with |- context [if ?b then _ else _] => destruct b end;
    reflexivity.
Qed.

Lemma candidateScore_casing (el el' : Element) :
  (forall name, In name ["src"; "alt"; "id"; "class"] ->
     JS.toLowerCase (JS.orEmpty (attr el name))
     = JS.toLowerCase (JS.orEmpty (attr el' name))) ->
  candidateScore el = candidateScore el'.
Proof.
  intros H. unfold candidateScore, elementScore.
  rewrite !JSFacts.toLowerCase_trim.
  rewrite (H "src"), (H "alt"), (H "id"), (H "class"); simpl; auto 6.
Qed.

Lemma score_logo_path (p alt id cls : string) :
  let src := (p ++ "/logo.png")%string in
  let h := haystackOf src alt id cls in
  scoreImageCandidate src alt id cls
  = 15 + bonus (JS.includes h "brand") 4
    + bonus (JS.includes h "header" || JS.includes h "navbar") 2
    + bonus (JS.includes h "site" || JS.includes h "main") 1.
Proof.
  intros src h. rewrite scoreImageCandidate_additive. fold h.
  assert (Hsrc : forall needle, JS.includes "/logo.png" needle = true ->
                                JS.includes src needle = true)
    by (intros needle Hn; now apply JSFacts.includes_app_r).
  assert (H1 : JS.includes h "logo" = true)
    by (apply JSFacts.includes_app_l, Hsrc; reflexivity).
  assert (H2 : JS.includes src "/logo." = true) by (apply Hsrc; reflexivity).
  rewrite H1, H2. unfold bonus at 1 5. lia.
Qed.

Section ScanStep.
Context {api : URLApi}.

(** One round of the traversal: the element is skipped, or the
    traversal is abandoned, or one candidate is pushed, with the
    resolved URL and the element's score. *)
Lemma scanImages_step (parsedUrl : URL) (el : Element) (rest : list Element)
      (candidates : list Candidate) :
  let src := JS.trim (JS.orEmpty (attr el "src")) in
  scanImages parsedUrl (el :: rest) candidates =
  if String.eqb src "" || JS.startsWith src "data:"
     || negb (hasImageExtension (JS.toLowerCase src))
  then scanImages parsedUrl rest candidates
  else match URL_new_base src parsedUrl with
       | None => Throw "TypeError: Invalid URL"
       | Some u =>
           scanImages parsedUrl rest
             (candidates ++ [mkCandidate (URL_toString u) (candidateScore el)])
       end.
Proof.
  cbv zeta. cbn [scanImages]. unfold candidateScore.
  destruct (String.eqb _ "" || JS.startsWith _ "data:"); [reflexivity|].
  cbn [orb].
  destruct (hasImageExtension _); reflexivity.
Qed.
End ScanStep.

(** C3, with the score of the class example corrected: the score is a
    function of the four texts, the sum of the points of the rules that
    match (logo 10, brand 4, header or navbar 2, site or main 1,
    "/logo." in the source 5); the score that the scan gives to an
    image element is [candidateScore], which does not depend on the
    casing of the src, alt, id and class values; an element whose only
    text is class="site-logo-header" scores 10 + 2 + 1 = 13, because
    "site" matches as well; and a source that ends in /logo.png scores
    10 + 5 = 15 plus the points of the other rules that match. *)
Theorem C3_score_is_additive_and_case_insensitive :
  (forall src alt id cls : string,
      let h := haystackOf src alt id cls in
      scoreImageCandidate src alt id cls
      = bonus (JS.includes h "logo") 10
        + bonus (JS.includes h "brand") 4
        + bonus (JS.includes h "header" || JS.includes h "navbar") 2
        + bonus (JS.includes h "site" || JS.includes h "main") 1
        + bonus (JS.includes src "/logo.") 5)
  /\ (forall (api : URLApi) (parsedUrl : URL) (el : Element)
             (rest : list Element) (candidates : list Candidate),
         let src := JS.trim (JS.orEmpty (attr el "src")) in
         scanImages parsedUrl (el :: rest) candidates =
         if String.eqb src "" || JS.startsWith src "data:"
            || negb (hasImageExtension (JS.toLowerCase src))
         then scanImages parsedUrl rest candidates
         else match URL_new_base src parsedUrl with
              | None => Throw "TypeError: Invalid URL"
              | Some u =>
                  scanImages parsedUrl rest
                    (candidates
                       ++ [mkCandidate (URL_toString u) (candidateScore el)])
              end)
  /\ (forall el el' : Element,
         (forall name, In name ["src"; "alt"; "id"; "class"] ->
            JS.toLowerCase (JS.orEmpty (attr el name))
            = JS.toLowerCase (JS.orEmpty (attr el' name))) ->
         candidateScore el = candidateScore el')
  /\ scoreImageCandidate "" "" "" "site-logo-header" = 13
  /\ (forall p alt id cls : string,
         let src := (p ++ "/logo.png")%string in
         let h := haystackOf src alt id cls in
         scoreImageCandidate src alt id cls
         = 15 + bonus (JS.includes h "brand") 4
           + bonus (JS.includes h "header" || JS.includes h "navbar") 2
           + bonus (JS.includes h "site" || JS.includes h "main") 1).
Proof.
  split; [exact scoreImageCandidate_additive|].
  split; [exact (@scanImages_step)|].
  split; [exact candidateScore_casing|].
  split; [reflexivity|].
  exact score_logo_path.
Qed.

(** Two image elements that differ only in the casing of their
    attribute values score the same, here 13 + 5 = 18. *)
Lemma C3_casing_witness :
  candidateScore (mkElement "img" [("src", "/IMG/Logo.PNG"); ("class", "Site-LOGO-Header")])
  = candidateScore (mkElement "img" [("src", "/img/logo.png"); ("class", "site-logo-header")])
  /\ candidateScore (mkElement "img" [("src", "/img/logo.png"); ("class", "site-logo-header")])
     = 18.
Proof.
  split; [|reflexivity].
  apply (proj1 (proj2 (proj2 C3_score_is_additive_and_case_insensitive))).
  intros name Hin. simpl in Hin.
  destruct Hin as [<-|[<-|[<-|[<-|[]]]]]; reflexivity.
Defined.

(** An element whose only text is class="site-logo-header" scores 13
    and not 12: its class value contains "site" besides "logo" and
    "header". *)
Lemma C3_site_logo_header_is_not_12 :
  scoreImageCandidate "" "" "" "site-logo-header" = 13
  /\ (scoreImageCandidate "" "" "" "site-logo-header" =? 12) = false
  /\ JS.includes "   site-logo-header" "site" = true
  /\ candidateScore (mkElement "img" [("src", "a.png"); ("class", "site-logo-header")])
     = 13.
Proof. repeat split. Qed.

(* ------------------------------------------------------------------ *)
(** ** Facts about the small implementation *)

Module MiniFacts.
Import Mini.

Lemma length_bytes (n : nat) : String.length (bytes n) = n.
Proof. induction n; simpl; congruence. Qed.

Lemma size_of_image (contentType : string) (size : Z) (body : string) :
  0 <= size ->
  res_body (image contentType size) = Some body ->
  Z.of_nat (String.length body) = size.
Proof.
  intros Hpos H. inversion H. rewrite length_bytes. now apply Z2Nat.id.
Qed.
End MiniFacts.


(* ------------------------------------------------------------------ *)
(** ** The image validator *)

Section Validator.
Variable World : Type.
Variable http_get : string -> World -> FetchOutcome * World.

(** The code computes the verdict of the specification, sends one
    request, and never throws. *)
Lemma downloadAndValidateImage_refines (imageUrl : string) (n : Net World) :
  downloadAndValidateImage World http_get imageUrl n
  = (Ret (resultObject
            (validatorSpec imageUrl (fst (http_get imageUrl (net_world n))))),
     afterRequest World http_get imageUrl n).
Proof.
  unfold downloadAndValidateImage, tryCatch, bind, fetch, afterRequest, ret.
  destruct (http_get imageUrl (net_world n)) as [[|r] w]; cbn [fst snd];
    [reflexivity|].
  unfold validatorSpec, acceptedContentType, acceptedPrefix, readBody, throw, ret.
  destruct (res_ok r); cbn [negb]; [|reflexivity].
  set (ct := JS.toLowerCase (JS.orEmpty (res_contentType r))).
  destruct (JS.startsWith ct "image/jpeg"), (JS.startsWith ct "image/jpg"),
    (JS.startsWith ct "image/png"); cbn [negb andb orb]; try reflexivity;
    (destruct (res_body r) as [body|]; [|reflexivity];
     unfold MAX_LOGO_BYTES; rewrite Z.geb_leb, Z.leb_antisym;
     destruct (Z.of_nat (String.length body) <? 2 * 1024 * 1024);
     reflexivity).
Qed.

Lemma validatorSpec_accepted (imageUrl : string) (o : FetchOutcome) :
  (exists l, validatorSpec imageUrl o = Accepted l)
  <-> (exists r body,
          o = Responded r /\ res_ok r = true
          /\ acceptedContentType (res_contentType r) = true
          /\ res_body r = Some body
          /\ Z.of_nat (String.length body) < 2 * 1024 * 1024).
Proof.
  unfold validatorSpec. split.
  - intros [l H]. destruct o as [|r]; [discriminate|].
    destruct (res_ok r) eqn:Hok; [|discriminate].
    destruct (acceptedContentType _) eqn:Hct; [|discriminate].
    destruct (res_body r) as [body|] eqn:Hbody; [|discriminate].
    cbn [negb] in H.
    destruct (Z.ltb_spec (Z.of_nat (String.length body)) (2 * 1024 * 1024));
      [|discriminate].
    exists r, body; repeat split; auto.
  - intros (r & body & -> & -> & -> & -> & Hlt). cbn [negb].
    apply Z.ltb_lt in Hlt. rewrite Hlt. eauto.
Qed.

Lemma validatorSpec_too_large (imageUrl : string) (r : Response) (body : string) :
  res_ok r = true ->
  acceptedContentType (res_contentType r) = true ->
  res_body r = Some body ->
  2 * 1024 * 1024 <= Z.of_nat (String.length body) ->
  validatorSpec imageUrl (Responded r)
  = Rejected "too_large" (Some (Z.of_nat (String.length body))).
Proof.
  intros Hok Hct Hbody Hge. unfold validatorSpec.
  rewrite Hok, Hct, Hbody. cbn [negb].
  apply Z.ltb_ge in Hge. now rewrite Hge.
Qed.

(** C5: the validator never throws and sends one request; it accepts
    exactly when the response is successful, its content-type header
    starts, case-insensitively, with image/jpeg, image/jpg or image/png,
    and the body is shorter than 2 x 1024 x 1024 bytes.  Otherwise, in
    the order of the checks: a transport failure (of the request, or of
    the reading of the body) gives download_error; a non-success status
    gives fetch_failed; another content type gives unsupported_type,
    whatever the bytes are; a body of 2 MiB or more gives too_large with
    the observed size. *)
Theorem C5_validator_accepts_iff (imageUrl : string) (n : Net World) :
  let o := fst (http_get imageUrl (net_world n)) in
  exists lc : LogoCheck,
    downloadAndValidateImage World http_get imageUrl n
    = (Ret lc, afterRequest World http_get imageUrl n)
    /\ ((exists l, lc = resultObject (Accepted l))
        <-> (exists r body,
                o = Responded r /\ res_ok r = true
                /\ acceptedContentType (res_contentType r) = true
                /\ res_body r = Some body
                /\ Z.of_nat (String.length body) < 2 * 1024 * 1024))
    /\ (o = NetworkError ->
        lc = resultObject (Rejected "download_error" None))
    /\ (forall r, o = Responded r -> res_ok r = false ->
        lc = resultObject (Rejected "fetch_failed" None))
    /\ (forall r, o = Responded r -> res_ok r = true ->
        acceptedContentType (res_contentType r) = false ->
        lc = resultObject (Rejected "unsupported_type" None))
    /\ (forall r, o = Responded r -> res_ok r = true ->
        acceptedContentType (res_contentType r) = true ->
        res_body r = None ->
        lc = resultObject (Rejected "download_error" None))
    /\ (forall r body, o = Responded r -> res_ok r = true ->
        acceptedContentType (res_contentType r) = true ->
        res_body r = Some body ->
        2 * 1024 * 1024 <= Z.of_nat (String.length body) ->
        lc = resultObject
               (Rejected "too_large" (Some (Z.of_nat (String.length body)))))
    /\ (forall r body, o = Responded r -> res_ok r = true ->
        acceptedContentType (res_contentType r) = true ->
        res_body r = Some body ->
        Z.of_nat (String.length body) < 2 * 1024 * 1024 ->
        lc = resultObject
               (Accepted (mkLogo imageUrl (Z.of_nat (String.length body))
                            (JS.toLowerCase (JS.orEmpty (res_contentType r)))
                            body))).
Proof.
  intros o. eexists. split; [apply downloadAndValidateImage_refines|].
  fold o. split.
  - rewrite <- (validatorSpec_accepted imageUrl o). split; intros [l H]; exists l.
    + destruct (validatorSpec imageUrl o); simpl in H; [congruence | discriminate].
    + now rewrite H.
  - unfold validatorSpec.
    repeat split.
    + now intros ->.
    + now intros r -> ->.
    + now intros r -> -> ->.
    + now intros r -> -> -> ->.
    + intros r body -> -> -> -> Hge. cbn [negb].
      apply Z.ltb_ge in Hge. now rewrite Hge.
    + intros r body -> -> -> -> Hlt. cbn [negb].
      apply Z.ltb_lt in Hlt. now rewrite Hlt.
Qed.

End Validator.

(** On the site [Sites.threeImages] the small photo is accepted, the
    logo, which is served as text/html, is of an unsupported type, and
    the brand image of 2 MiB is too large. *)
Lemma C5_witness :
  fst (downloadAndValidateImage Mini.Web Mini.get
         "https://shop.example/img/photo.png" (mkNet Sites.threeImages []))
  = Ret (resultObject
           (Accepted (mkLogo "https://shop.example/img/photo.png" 10
                        "image/png" "xxxxxxxxxx")))
  /\ fst (downloadAndValidateImage Mini.Web Mini.get
            "https://shop.example/img/logo.png" (mkNet Sites.threeImages []))
     = Ret (resultObject (Rejected "unsupported_type" None))
  /\ fst (downloadAndValidateImage Mini.Web Mini.get
            "https://shop.example/img/brand.png" (mkNet Sites.threeImages []))
     = Ret (resultObject (Rejected "too_large" (Some 2097152))).
Proof.
  pose (n := @mkNet Mini.Web Sites.threeImages []).
  pose (brand := Mini.image "image/png" MAX_LOGO_BYTES).
  fold n. split; [|split].
  - destruct (C5_validator_accepts_iff Mini.Web Mini.get
                "https://shop.example/img/photo.png" n)
      as (lc & Hrun & _ & _ & _ & _ & _ & _ & Hsmall).
    rewrite Hrun. cbn [fst].
    rewrite (Hsmall (Mini.image "image/png" 10) "xxxxxxxxxx"
               eq_refl eq_refl eq_refl eq_refl); [reflexivity|].
    vm_compute. reflexivity.
  - destruct (C5_validator_accepts_iff Mini.Web Mini.get
                "https://shop.example/img/logo.png" n)
      as (lc & Hrun & _ & _ & _ & Htype & _).
    rewrite Hrun. cbn [fst].
    now rewrite (Htype (mkResponse true (Some "text/html") (Some "<h1>gone</h1>"))
                   eq_refl eq_refl eq_refl).
  - destruct (C5_validator_accepts_iff Mini.Web Mini.get
                "https://shop.example/img/brand.png" n)
      as (lc & Hrun & _ & _ & _ & _ & _ & Hlarge & _).
    rewrite Hrun. cbn [fst].
    assert (Hsize : Z.of_nat (String.length (Mini.bytes (Z.to_nat MAX_LOGO_BYTES)))
                    = 2097152)
      by (apply (MiniFacts.size_of_image "image/png" MAX_LOGO_BYTES);
          [vm_compute; discriminate | reflexivity]).
    rewrite (Hlarge brand (Mini.bytes (Z.to_nat MAX_LOGO_BYTES))
               eq_refl eq_refl eq_refl eq_refl).
    + rewrite Hsize. reflexivity.
    + rewrite Hsize. vm_compute. discriminate.
Defined.

(* ------------------------------------------------------------------ *)
(** ** The validation loop and the orchestrator *)

Section Orchestrator.
Context {api : URLApi}.
Variable World : Type.
Variable http_get : string -> World -> FetchOutcome * World.
Variable cheerio_load : string -> Document.

Lemma download_inv (imageUrl : string) (n n1 : Net World) (lc : LogoCheck) :
  downloadAndValidateImage World http_get imageUrl n = (Ret lc, n1) ->
  lc = resultObject
         (validatorSpec imageUrl (fst (http_get imageUrl (net_world n))))
  /\ n1 = afterRequest World http_get imageUrl n.
Proof.
  rewrite downloadAndValidateImage_refines. intros H; inversion H; auto.
Qed.

(** One round of the loop. *)
Lemma validateCandidates_step (sp : SocialProfiles) (c : Candidate)
      (rest : list Candidate) (n : Net World) :
  validateCandidates World http_get sp (c :: rest) n
  = let n1 := afterRequest World http_get (cand_url c) n in
    match validatorSpec (cand_url c)
                        (fst (http_get (cand_url c) (net_world n))) with
    | Accepted l => (Ret (Some (successResult l sp)), n1)
    | Rejected reason _ =>
        if String.eqb reason "too_large"
        then (Ret (Some (tooLargeResult sp)), n1)
        else validateCandidates World http_get sp rest n1
    end.
Proof.
  cbn [validateCandidates]. unfold bind at 1.
  rewrite downloadAndValidateImage_refines.
  destruct (validatorSpec _ _) as [l|reason size]; [reflexivity|].
  cbn. destruct (String.eqb reason "too_large"); reflexivity.
Qed.

(** The loop never throws; it decides on a size failure or on a logo
    that the validator accepted; and the images it requested are a
    prefix of the candidates, all of them when it decides nothing. *)
Lemma validateCandidates_total (sp : SocialProfiles)
      (candidates : list Candidate) (n : Net World) :
  exists (chosen : option ExtractionResult) (n' : Net World) (k : nat),
    validateCandidates World http_get sp candidates n = (Ret chosen, n')
    /\ net_requests n' = (net_requests n ++ map cand_url (firstn k candidates))%list
    /\ (chosen = None /\ firstn k candidates = candidates
        \/ chosen = Some (tooLargeResult sp)
        \/ exists l, chosen = Some (successResult l sp)
                     /\ acceptedPrefix (logo_contentType l) = true).
Proof.
  revert n. induction candidates as [|c rest IH]; intros n.
  - exists None, n, O. cbn. rewrite app_nil_r. auto.
  - rewrite validateCandidates_step. cbv zeta.
    set (n1 := afterRequest World http_get (cand_url c) n).
    assert (Hreq : forall l, (net_requests n ++ cand_url c :: l
                              = net_requests n1 ++ l)%list)
      by (intros l; unfold n1, afterRequest; cbn [net_requests];
          now rewrite <- app_assoc).
    destruct (validatorSpec _ _) as [l|reason size] eqn:Hv.
    + exists (Some (successResult l sp)), n1, 1%nat.
      split; [reflexivity|]. split.
      * cbn. rewrite Hreq. now rewrite app_nil_r.
      * right; right. exists l; split; [reflexivity|].
        unfold validatorSpec in Hv.
        destruct (fst _) as [|r]; [discriminate|].
        destruct (res_ok r); [|discriminate].
        destruct (acceptedContentType _) eqn:Hct; [|discriminate].
        destruct (res_body r); [|discriminate].
        cbn [negb] in Hv.
        destruct (_ <? _); [|discriminate].
        inversion Hv; subst l. exact Hct.
    + destruct (String.eqb reason "too_large").
      * exists (Some (tooLargeResult sp)), n1, 1%nat.
        split; [reflexivity|]. split; [|auto].
        cbn. rewrite Hreq. now rewrite app_nil_r.
      * destruct (IH n1) as (chosen & n' & k & Hrun & Hk & Hres).
        exists chosen, n', (S k). split; [exact Hrun|]. split.
        -- cbn. rewrite Hreq. exact Hk.
        -- destruct Hres as [[-> Hall]|Hres]; [|auto].
           left. split; [reflexivity|]. cbn. now rewrite Hall.
Qed.

(** What [fetchCompanyLogo] returns once the candidates are known. *)
Lemma fetchCompanyLogo_validates (targetUrl : string) (n n0 : Net World)
      (sp : SocialProfiles) (candidates : list Candidate) :
  reachesValidation World http_get cheerio_load targetUrl n sp candidates n0 ->
  fetchCompanyLogo World http_get cheerio_load targetUrl n
  = match validateCandidates World http_get sp
            (JS.sort byScoreDesc candidates) n0 with
    | (Ret (Some r), n') => (Ret r, n')
    | (Ret None, n') => (Ret (couldNotIdentify sp), n')
    | (Throw _, n') => (Ret (couldNotIdentify emptySocialProfiles), n')
    end.
Proof.
  intros (parsedUrl & pageRes & html & Hnb & Hurl & Hget & Hok & Hbody
          & Hscan & Hne & -> & ->).
  unfold fetchCompanyLogo. unfold notBlank in Hnb.
  apply negb_true_iff in Hnb. rewrite Hnb, Hurl.
  unfold tryCatch, fetchAndExtract, bind at 1, fetch, afterRequest.
  destruct (http_get (URL_toString parsedUrl) (net_world n)) as [o w].
  cbn [fst snd] in *. subst o. rewrite Hok. cbn [negb].
  unfold bind at 1, readBody. rewrite Hbody. unfold ret at 1.
  unfold bind at 1, liftExc. rewrite Hscan.
  destruct candidates as [|c cs]; [congruence|].
  unfold bind.
  destruct (validateCandidates _ _ _ _ _) as [[[r|]|e] n'];
    reflexivity.
Qed.

End Orchestrator.

(* ------------------------------------------------------------------ *)
(** ** The results of the orchestrator *)

Section Results.
Context {api : URLApi}.
Variable World : Type.
Variable http_get : string -> World -> FetchOutcome * World.
Variable cheerio_load : string -> Document.

Lemma downstreamResult_wellFormed (r : ExtractionResult) :
  downstreamResult r -> wellFormed r = true /\ exists sp, socialProfiles r = Some sp.
Proof. destruct 1; split; try reflexivity; eexists; reflexivity. Qed.

(** The [try] block returns a downstream result or throws. *)
Lemma fetchAndExtract_result (parsedUrl : URL) (n : Net World) :
  exists (x : Exc ExtractionResult) (n' : Net World),
    fetchAndExtract World http_get cheerio_load parsedUrl n = (x, n')
    /\ match x with
       | Ret r => downstreamResult r
       | Throw _ => True
       end.
Proof.
  unfold fetchAndExtract, bind at 1, fetch.
  destruct (http_get (URL_toString parsedUrl) (net_world n)) as [[|pageRes] w].
  - eexists _, _; split; [reflexivity | exact I].
  - destruct (res_ok pageRes); cbn [negb].
    2:{ eexists _, _; split; [reflexivity | constructor]. }
    unfold bind at 1, readBody.
    destruct (res_body pageRes) as [html|].
    2:{ eexists _, _; split; [reflexivity | exact I]. }
    unfold ret at 1, bind at 1, liftExc.
    destruct (scanImages _ _ _) as [[|c cs]|e].
    + eexists _, _; split; [reflexivity | constructor].
    + unfold bind.
      destruct (validateCandidates_total World http_get
                  (extractSocialProfiles (cheerio_load html) parsedUrl)
                  (JS.sort byScoreDesc (c :: cs))
                  (mkNet w (net_requests n ++ [URL_toString parsedUrl])))
        as (chosen & n' & k & -> & _ & Hres).
      destruct Hres as [[-> _]|[->|(l & -> & Hl)]];
        eexists _, _; (split; [reflexivity | now constructor]).
    + eexists _, _; split; [reflexivity | exact I].
Qed.

(** [fetchCompanyLogo] always returns, and what it returns. *)
Lemma fetchCompanyLogo_result (targetUrl : string) (n : Net World) :
  exists (r : ExtractionResult) (n' : Net World),
    fetchCompanyLogo World http_get cheerio_load targetUrl n = (Ret r, n')
    /\ (if notBlank targetUrl then
          match URL_new targetUrl with
          | None => r = malformedUrlResult /\ n' = n
          | Some parsedUrl =>
              match fetchAndExtract World http_get cheerio_load parsedUrl n with
              | (Ret r0, n0) => r = r0 /\ n' = n0 /\ downstreamResult r
              | (Throw _, n0) =>
                  r = couldNotIdentify emptySocialProfiles /\ n' = n0
              end
          end
        else r = emptyUrlResult /\ n' = n).
Proof.
  unfold fetchCompanyLogo, notBlank.
  destruct (String.eqb targetUrl "" || String.eqb (JS.trim targetUrl) "");
    cbn [negb].
  - eexists _, _; split; [reflexivity | auto].
  - destruct (URL_new targetUrl) as [parsedUrl|].
    2:{ eexists _, _; split; [reflexivity | auto]. }
    unfold tryCatch.
    destruct (fetchAndExtract_result parsedUrl n) as (x & n0 & -> & Hx).
    destruct x as [r0|e]; eexists _, _; (split; [reflexivity | auto]).
Qed.

Lemma notBlank_trim (targetUrl : string) :
  notBlank targetUrl = negb (String.eqb (JS.trim targetUrl) "").
Proof.
  unfold notBlank. destruct targetUrl; reflexivity.
Qed.

End Results.

(* ------------------------------------------------------------------ *)
(** ** Fallback and short-circuit *)

Section Fallback.
Context {api : URLApi}.
Variable World : Type.
Variable http_get : string -> World -> FetchOutcome * World.
Variable cheerio_load : string -> Document.

(** Candidates that are rejected for another reason than their size
    are passed over, one request each. *)
Lemma validateCandidates_softlyRejected (sp : SocialProfiles)
      (n n1 : Net World) (pre rest : list Candidate) :
  softlyRejected World http_get n pre n1 ->
  validateCandidates World http_get sp (pre ++ rest) n
  = validateCandidates World http_get sp rest n1
  /\ net_requests n1 = (net_requests n ++ map cand_url pre)%list.
Proof.
  induction 1 as [n|n c lc n1 cs n2 Hrun [reason [Hin Hreason]] _ IH].
  - cbn. now rewrite app_nil_r.
  - apply download_inv in Hrun as [-> ->].
    cbn [app]. rewrite validateCandidates_step. cbv zeta.
    destruct (validatorSpec _ _) as [l|reason' size]; [discriminate|].
    cbn in Hreason. inversion Hreason; subst reason'.
    assert (Hsoft : String.eqb reason "too_large" = false)
      by (cbn in Hin; destruct Hin as [<-|[<-|[<-|[]]]]; reflexivity).
    rewrite Hsoft. destruct IH as [-> ->]. split; [reflexivity|].
    unfold afterRequest; cbn [net_requests map].
    now rewrite <- app_assoc.
Qed.

(** C1: when the candidates, in descending order of score, are
    validated one after the other, those rejected with fetch_failed,
    unsupported_type or download_error are passed over, one request
    each, and the iteration continues with the next candidate; when the
    validation of that candidate returns too_large, the program returns
    the failure "logo greater than image limit" at once, and no later
    candidate is requested, whatever its validation would have given. *)
Theorem C1_size_rejection_ends_the_fallback
        (targetUrl : string) (n n0 n1 : Net World) (sp : SocialProfiles)
        (candidates pre post : list Candidate) (c : Candidate) :
  reachesValidation World http_get cheerio_load targetUrl n sp candidates n0 ->
  JS.sort byScoreDesc candidates = (pre ++ c :: post)%list ->
  softlyRejected World http_get n0 pre n1 ->
  validateCandidates World http_get sp (pre ++ c :: post) n0
  = validateCandidates World http_get sp (c :: post) n1
  /\ net_requests n1 = (net_requests n0 ++ map cand_url pre)%list
  /\ forall (lc : LogoCheck) (n2 : Net World),
      downloadAndValidateImage World http_get (cand_url c) n1 = (Ret lc, n2) ->
      lc_reason lc = Some "too_large" ->
      fetchCompanyLogo World http_get cheerio_load targetUrl n
      = (Ret (tooLargeResult sp), n2)
      /\ net_requests n2 = (net_requests n0 ++ map cand_url (pre ++ [c]))%list.
Proof.
  intros Hreach Hsort Hpre.
  destruct (validateCandidates_softlyRejected sp _ _ _ (c :: post) Hpre)
    as [Hloop Hreq].
  split; [exact Hloop|]. split; [exact Hreq|].
  intros lc n2 Hrun Hreason.
  rewrite (fetchCompanyLogo_validates _ _ _ _ _ _ _ _ Hreach), Hsort, Hloop.
  apply download_inv in Hrun as [-> ->].
  rewrite validateCandidates_step. cbv zeta.
  destruct (validatorSpec _ _) as [l|reason size]; [discriminate|].
  cbn in Hreason. inversion Hreason; subst reason. cbn.
  split; [reflexivity|].
  rewrite Hreq, map_app, app_assoc. reflexivity.
Qed.

End Fallback.

(** On the site [Sites.threeImages] the logo is passed over (it is not
    an image), the brand image is too large, and the photo, which would
    have been accepted, is never requested. *)
Lemma C1_witness :
  fst (Mini.run Sites.threeImages "https://shop.example")
  = Ret (tooLargeResult Sites.facebookOnly)
  /\ net_requests (snd (Mini.run Sites.threeImages "https://shop.example"))
     = [ "https://shop.example/";
         "https://shop.example/img/logo.png";
         "https://shop.example/img/brand.png" ]
  /\ fst (downloadAndValidateImage Mini.Web Mini.get
            "https://shop.example/img/photo.png"
            (snd (Mini.run Sites.threeImages "https://shop.example")))
     = Ret (resultObject
              (Accepted (mkLogo "https://shop.example/img/photo.png" 10
                           "image/png" "xxxxxxxxxx"))).
Proof.
  pose (n := @mkNet Mini.Web Sites.threeImages []).
  pose (logoC := mkCandidate "https://shop.example/img/logo.png" 15).
  pose (brandC := mkCandidate "https://shop.example/img/brand.png" 4).
  pose (photoC := mkCandidate "https://shop.example/img/photo.png" 0).
  assert (Hreach : @reachesValidation Mini.api Mini.Web Mini.get Mini.load
                     "https://shop.example" n Sites.facebookOnly
                     Sites.threeCandidates
                     (afterRequest Mini.Web Mini.get "https://shop.example/" n)).
  { exists Sites.shop, (Mini.page Sites.threeImagesPage), Sites.threeImagesPage.
    repeat split; try reflexivity; discriminate. }
  pose (n0 := afterRequest Mini.Web Mini.get "https://shop.example/" n).
  pose (n1 := afterRequest Mini.Web Mini.get (cand_url logoC) n0).
  pose (n2 := afterRequest Mini.Web Mini.get (cand_url brandC) n1).
  pose (lc := resultObject (Rejected "too_large" (Some 2097152))).
  assert (Hsize : Z.of_nat (String.length (Mini.bytes (Z.to_nat MAX_LOGO_BYTES)))
                  = 2097152)
    by (apply (MiniFacts.size_of_image "image/png" MAX_LOGO_BYTES);
        [vm_compute; discriminate | reflexivity]).
  assert (Hge : 2 * 1024 * 1024
                <= Z.of_nat (String.length (Mini.bytes (Z.to_nat MAX_LOGO_BYTES))))
    by (rewrite Hsize; vm_compute; discriminate).
  assert (Hget : fst (Mini.get (cand_url brandC) (net_world n1))
                 = Responded (Mini.image "image/png" MAX_LOGO_BYTES))
    by reflexivity.
  assert (Hbrand : downloadAndValidateImage Mini.Web Mini.get (cand_url brandC) n1
                   = (Ret lc, n2)).
  { rewrite downloadAndValidateImage_refines, Hget.
    rewrite (validatorSpec_too_large (cand_url brandC)
               (Mini.image "image/png" MAX_LOGO_BYTES)
               (Mini.bytes (Z.to_nat MAX_LOGO_BYTES))
               eq_refl eq_refl eq_refl Hge), Hsize.
    reflexivity. }
  assert (Hsoft : softlyRejected Mini.Web Mini.get n0 [logoC] n1).
  { eapply softly_cons; [apply downloadAndValidateImage_refines | | apply softly_nil].
    exists "unsupported_type".
    split; [right; left; reflexivity | vm_compute; reflexivity]. }
  destruct (@C1_size_rejection_ends_the_fallback Mini.api Mini.Web Mini.get
              Mini.load "https://shop.example" n n0 n1 Sites.facebookOnly
              Sites.threeCandidates [logoC] [photoC] brandC Hreach eq_refl Hsoft)
    as (_ & _ & Hlarge).
  destruct (Hlarge lc n2 Hbrand eq_refl) as [Hres Hreq].
  unfold Mini.run. fold n. rewrite Hres. cbn [fst snd]. rewrite Hreq.
  split; [reflexivity|]. split; [reflexivity|].
  rewrite downloadAndValidateImage_refines. reflexivity.
Defined.

(* ------------------------------------------------------------------ *)
(** ** Results and errors *)

Section Boundary.
Context {api : URLApi}.
Variable World : Type.
Variable http_get : string -> World -> FetchOutcome * World.
Variable cheerio_load : string -> Document.

(** C2: for every input string [fetchCompanyLogo] returns a result, and
    never throws; the result is well formed; and when anything throws
    after the URL is normalised, the result is the failure "could not
    identify logo" with social profiles that are all null. *)
Theorem C2_no_exception_escapes (targetUrl : string) (n : Net World) :
  exists (r : ExtractionResult) (n' : Net World),
    fetchCompanyLogo World http_get cheerio_load targetUrl n = (Ret r, n')
    /\ wellFormed r = true
    /\ (forall (parsedUrl : URL) (e : string) (n1 : Net World),
           notBlank targetUrl = true ->
           URL_new targetUrl = Some parsedUrl ->
           fetchAndExtract World http_get cheerio_load parsedUrl n = (Throw e, n1) ->
           r = couldNotIdentify emptySocialProfiles /\ n' = n1).
Proof.
  destruct (fetchCompanyLogo_result World http_get cheerio_load targetUrl n)
    as (r & n' & Hrun & Hr).
  exists r, n'. split; [exact Hrun|]. split.
  - destruct (notBlank targetUrl); [|now destruct Hr as [-> _]].
    destruct (URL_new targetUrl) as [parsedUrl|]; [|now destruct Hr as [-> _]].
    destruct (fetchAndExtract _ _ _ _ _) as [[r0|e] n0].
    + destruct Hr as (_ & _ & Hds).
      now apply downstreamResult_wellFormed in Hds.
    + now destruct Hr as [-> _].
  - intros parsedUrl e n1 Hnb Hurl Hthrow.
    rewrite Hnb, Hurl, Hthrow in Hr. exact Hr.
Qed.

(** C7: a blank input gives the failure "False" and a non-blank input
    that is not an absolute URL gives the failure "Malformed URL", both
    without social profiles and without any request; every result that
    is produced once the URL is normalised carries social profiles. *)
Theorem C7_input_failures_carry_no_profiles (targetUrl : string) (n : Net World) :
  (JS.trim targetUrl = "" ->
   fetchCompanyLogo World http_get cheerio_load targetUrl n
   = (Ret (mkResult false "False" None None), n))
  /\ (JS.trim targetUrl <> "" -> URL_new targetUrl = None ->
      fetchCompanyLogo World http_get cheerio_load targetUrl n
      = (Ret (mkResult false "Malformed URL" None None), n))
  /\ (JS.trim targetUrl <> "" ->
      forall parsedUrl : URL, URL_new targetUrl = Some parsedUrl ->
      exists (r : ExtractionResult) (n' : Net World) (sp : SocialProfiles),
        fetchCompanyLogo World http_get cheerio_load targetUrl n = (Ret r, n')
        /\ socialProfiles r = Some sp).
Proof.
  destruct (fetchCompanyLogo_result World http_get cheerio_load targetUrl n)
    as (r & n' & Hrun & Hr).
  rewrite notBlank_trim in Hr.
  repeat split.
  - intros Hblank. rewrite Hblank in Hr. cbn in Hr.
    destruct Hr as [-> ->]. exact Hrun.
  - intros Hnb Hurl. apply String.eqb_neq in Hnb.
    rewrite Hnb, Hurl in Hr. cbn in Hr. destruct Hr as [-> ->]. exact Hrun.
  - intros Hnb parsedUrl Hurl. apply String.eqb_neq in Hnb.
    rewrite Hnb, Hurl in Hr. cbn [negb] in Hr.
    exists r, n'.
    destruct (fetchAndExtract _ _ _ _ _) as [[r0|e] n0].
    + destruct Hr as (_ & _ & Hds).
      apply downstreamResult_wellFormed in Hds as [_ [sp Hsp]].
      exists sp. auto.
    + destruct Hr as [-> _]. exists emptySocialProfiles. auto.
Qed.

(** C9, with the set of content types corrected: the content type of
    a validated logo is the content-type header of the response in
    lower case, and it starts with image/jpeg, image/jpg or image/png;
    so does the content type of the logo of every result of
    [fetchCompanyLogo]. *)
Theorem C9_content_type_is_the_lowercased_header :
  (forall (imageUrl : string) (n n' : Net World) (lc : LogoCheck) (l : Logo),
      downloadAndValidateImage World http_get imageUrl n = (Ret lc, n') ->
      lc_logo lc = Some l ->
      acceptedPrefix (logo_contentType l) = true
      /\ exists r, fst (http_get imageUrl (net_world n)) = Responded r
                   /\ logo_contentType l
                      = JS.toLowerCase (JS.orEmpty (res_contentType r)))
  /\ (forall (targetUrl : string) (n n' : Net World) (r : ExtractionResult)
             (l : Logo),
         fetchCompanyLogo World http_get cheerio_load targetUrl n = (Ret r, n') ->
         logo r = Some l ->
         acceptedPrefix (logo_contentType l) = true).
Proof.
  split.
  - intros imageUrl n n' lc l Hrun Hl.
    apply download_inv in Hrun as [-> _].
    unfold validatorSpec in Hl.
    destruct (fst _) as [|r]; [discriminate|].
    destruct (res_ok r); [|discriminate].
    destruct (acceptedContentType _) eqn:Hct; [|discriminate].
    destruct (res_body r); [|discriminate].
    cbn [negb] in Hl. destruct (_ <? _); [|discriminate].
    inversion Hl; subst l. cbn. split; [exact Hct | eauto].
  - intros targetUrl n n' r l Hrun Hl.
    destruct (fetchCompanyLogo_result World http_get cheerio_load targetUrl n)
      as (r' & n'' & Hrun' & Hr).
    rewrite Hrun in Hrun'. inversion Hrun'; subst r' n''.
    destruct (notBlank targetUrl); [|destruct Hr as [-> _]; discriminate].
    destruct (URL_new targetUrl); [|destruct Hr as [-> _]; discriminate].
    destruct (fetchAndExtract _ _ _ _ _) as [[r0|e] n0].
    + destruct Hr as (_ & _ & Hds).
      destruct Hds; try discriminate. now inversion Hl; subst.
    + destruct Hr as [-> _]; discriminate.
Qed.

End Boundary.

(** With no site to reach, the request for the page throws, and the
    result is the failure with all-null social profiles. *)
Lemma C2_witness :
  fst (Mini.run Sites.nowhere "https://shop.example")
  = Ret (couldNotIdentify emptySocialProfiles)
  /\ wellFormed (couldNotIdentify emptySocialProfiles) = true.
Proof.
  pose (n := @mkNet Mini.Web Sites.nowhere []).
  destruct (@C2_no_exception_escapes Mini.api Mini.Web Mini.get Mini.load
              "https://shop.example" n) as (r & n' & Hrun & Hwf & Hcatch).
  destruct (Hcatch Sites.shop "FetchError"
              (mkNet Sites.nowhere ["https://shop.example/"]))
    as [Hr Hn']; [reflexivity | reflexivity | reflexivity |].
  unfold Mini.run. fold n. rewrite Hrun. subst r. split; reflexivity.
Defined.

(** A blank input, an input that is no URL, and a URL that cannot be
    reached. *)
Lemma C7_witness :
  Mini.run Sites.nowhere "   "
  = (Ret (mkResult false "False" None None), mkNet Sites.nowhere [])
  /\ Mini.run Sites.nowhere "not a url"
     = (Ret (mkResult false "Malformed URL" None None), mkNet Sites.nowhere [])
  /\ exists n' sp,
      Mini.run Sites.nowhere "https://shop.example"
      = (Ret (mkResult false "could not identify logo" None (Some sp)), n').
Proof.
  pose (n := @mkNet Mini.Web Sites.nowhere []).
  split; [|split].
  - apply (proj1 (@C7_input_failures_carry_no_profiles Mini.api Mini.Web
                    Mini.get Mini.load "   " n)).
    reflexivity.
  - apply (proj1 (proj2 (@C7_input_failures_carry_no_profiles Mini.api
                           Mini.Web Mini.get Mini.load "not a url" n))).
    + discriminate.
    + reflexivity.
  - destruct (proj2 (proj2 (@C7_input_failures_carry_no_profiles Mini.api
                              Mini.Web Mini.get Mini.load
                              "https://shop.example" n))
                    ltac:(discriminate) Sites.shop eq_refl)
      as (r & n' & sp & Hrun & Hsp).
    exists n', emptySocialProfiles. unfold Mini.run. fold n.
    rewrite Hrun. f_equal.
    unfold n in Hrun. vm_compute in Hrun. now inversion Hrun.
Defined.

(** A logo served as image/jpg keeps that content type. *)
Lemma C9_witness :
  acceptedPrefix "image/jpg" = true
  /\ fst (Mini.run Sites.jpgSite "https://shop.example")
     = Ret (successResult
              (mkLogo "https://shop.example/logo.jpg" 10 "image/jpg" "xxxxxxxxxx")
              emptySocialProfiles).
Proof.
  assert (Hrun : fst (Mini.run Sites.jpgSite "https://shop.example")
     = Ret (successResult
              (mkLogo "https://shop.example/logo.jpg" 10 "image/jpg" "xxxxxxxxxx")
              emptySocialProfiles)) by (vm_compute; reflexivity).
  split; [|exact Hrun].
  destruct (Mini.run Sites.jpgSite "https://shop.example") as [x n'] eqn:E.
  cbn [fst] in Hrun. subst x.
  exact (proj2 (@C9_content_type_is_the_lowercased_header Mini.api Mini.Web
                  Mini.get Mini.load)
               "https://shop.example" (mkNet Sites.jpgSite []) n' _ _ E eq_refl).
Defined.

(** The content type of a validated logo need not be image/jpeg or
    image/png: a response labelled image/jpg is accepted and keeps its
    label, and parameters of the header are kept as well. *)
Lemma C9_content_type_outside_the_two :
  fst (Mini.run Sites.jpgSite "https://shop.example")
  = Ret (successResult
           (mkLogo "https://shop.example/logo.jpg" 10 "image/jpg" "xxxxxxxxxx")
           emptySocialProfiles)
  /\ (String.eqb "image/jpg" "image/jpeg" || String.eqb "image/jpg" "image/png")
     = false
  /\ fst (Mini.run Sites.charsetSite "https://shop.example")
     = Ret (successResult
              (mkLogo "https://shop.example/logo.png" 10
                 "image/png; charset=binary" "xxxxxxxxxx")
              emptySocialProfiles).
Proof. repeat split; vm_compute; reflexivity. Qed.

(* ------------------------------------------------------------------ *)
(** ** An image source that is not a URL *)

Section Unresolvable.
Context {api : URLApi}.
Variable World : Type.
Variable http_get : string -> World -> FetchOutcome * World.
Variable cheerio_load : string -> Document.

Lemma scanImages_unresolvable (parsedUrl : URL) (imgs : list Element) :
  existsb (unresolvable parsedUrl) imgs = true ->
  forall candidates,
    scanImages parsedUrl imgs candidates = Throw "TypeError: Invalid URL".
Proof.
  induction imgs as [|el rest IH]; [discriminate|].
  intros H candidates. rewrite scanImages_step. cbv zeta.
  cbn [existsb] in H. unfold unresolvable, qualifies in H.
  set (src := JS.trim (JS.orEmpty (attr el "src"))) in *.
  destruct (String.eqb src "" || JS.startsWith src "data:"); cbn [negb andb orb] in *.
  - now apply IH.
  - destruct (hasImageExtension (JS.toLowerCase src)); cbn [negb andb orb] in *.
    + destruct (URL_new_base src parsedUrl) as [u|]; cbn in H.
      * now apply IH.
      * reflexivity.
    + now apply IH.
Qed.

(** C4, as the code behaves: when the source of one image that passes
    the filters does not resolve to an absolute URL, the traversal of
    the images is abandoned, no image is requested, and the result is
    the failure "could not identify logo" with all-null social
    profiles: the other images and the social profiles computed from
    the page are lost. *)
Theorem C4_unresolvable_source_abandons_the_scan
        (targetUrl : string) (n : Net World) (parsedUrl : URL)
        (pageRes : Response) (html : string) :
  notBlank targetUrl = true ->
  URL_new targetUrl = Some parsedUrl ->
  fst (http_get (URL_toString parsedUrl) (net_world n)) = Responded pageRes ->
  res_ok pageRes = true ->
  res_body pageRes = Some html ->
  existsb (unresolvable parsedUrl) (select_img (cheerio_load html)) = true ->
  fetchCompanyLogo World http_get cheerio_load targetUrl n
  = (Ret (couldNotIdentify emptySocialProfiles),
     afterRequest World http_get (URL_toString parsedUrl) n).
Proof.
  intros Hnb Hurl Hget Hok Hbody Hbad.
  unfold fetchCompanyLogo. unfold notBlank in Hnb.
  apply negb_true_iff in Hnb. rewrite Hnb, Hurl.
  unfold tryCatch, fetchAndExtract, bind at 1, fetch, afterRequest.
  destruct (http_get (URL_toString parsedUrl) (net_world n)) as [o w].
  cbn [fst snd] in *. subst o. rewrite Hok. cbn [negb].
  unfold bind at 1, readBody. rewrite Hbody. unfold ret at 1.
  unfold bind at 1, liftExc.
  now rewrite (scanImages_unresolvable _ _ Hbad).
Qed.

End Unresolvable.

(** On the site [Sites.brokenImage] the page has a Facebook link and a
    valid logo after the image whose source is not a URL; the result
    has neither. *)
Lemma C4_witness :
  Mini.run Sites.brokenImage "https://shop.example"
  = (Ret (couldNotIdentify emptySocialProfiles),
     mkNet Sites.brokenImage ["https://shop.example/"])
  /\ @extractSocialProfiles Mini.api (Mini.load Sites.brokenImagePage) Sites.shop
     = Sites.facebookOnly
  /\ @scanImages Mini.api Sites.shop
       (skipn 1 (select_img (Mini.load Sites.brokenImagePage))) []
     = Ret [mkCandidate "https://shop.example/img/logo.png" 15].
Proof.
  split; [|split; vm_compute; reflexivity].
  exact (@C4_unresolvable_source_abandons_the_scan Mini.api Mini.Web Mini.get
           Mini.load "https://shop.example" (mkNet Sites.brokenImage [])
           Sites.shop (Mini.page Sites.brokenImagePage) Sites.brokenImagePage
           eq_refl eq_refl eq_refl eq_refl eq_refl eq_refl).
Defined.

(* ------------------------------------------------------------------ *)
(** ** The order of validation *)

Lemma insert_perm (x : Candidate) (l : list Candidate) :
  Permutation (x :: l) (JS.insert byScoreDesc x l).
Proof.
  induction l as [|y l IH]; cbn; [reflexivity|].
  destruct (byScoreDesc y x <=? 0); [|reflexivity].
  rewrite perm_swap. now constructor.
Qed.

Lemma insert_descending (x : Candidate) (l : list Candidate) :
  descending l -> descending (JS.insert byScoreDesc x l).
Proof.
  unfold descending.
  induction 1 as [|y l Hl IH Hy]; cbn.
  - repeat constructor.
  - unfold byScoreDesc at 1.
    destruct (Z.leb_spec (cand_score x - cand_score y) 0) as [Hle|Hgt].
    + constructor; [exact IH|].
      apply (Permutation_Forall (insert_perm x l)).
      constructor; [lia | exact Hy].
    + constructor; [now constructor|].
      constructor; [lia|].
      eapply Forall_impl; [|exact Hy]. cbn. intros; lia.
Qed.

(** A new element goes behind the elements of its own score. *)
Lemma insert_withScore (z : Z) (x : Candidate) (l : list Candidate) :
  descending l ->
  withScore z (JS.insert byScoreDesc x l)
  = (withScore z l ++ withScore z [x])%list.
Proof.
  unfold descending, withScore.
  induction 1 as [|y l Hl IH Hy]; cbn [JS.insert]; [reflexivity|].
  unfold byScoreDesc at 1.
  destruct (Z.leb_spec (cand_score x - cand_score y) 0) as [Hle|Hgt].
  - cbn [filter]. rewrite IH.
    destruct (cand_score y =? z); reflexivity.
  - cbn [filter app].
    destruct (Z.eqb_spec (cand_score x) z) as [Hx|Hx]; [|now rewrite app_nil_r].
    assert (Hnone : forall l', Forall (fun b => cand_score b <= cand_score y) l' ->
                               filter (fun c => cand_score c =? z) l' = [])
      by (induction 1 as [|b l' Hb _ IH']; cbn; [reflexivity|];
          destruct (Z.eqb_spec (cand_score b) z); [lia | exact IH']).
    rewrite (Hnone l Hy).
    destruct (Z.eqb_spec (cand_score y) z); [lia | reflexivity].
Qed.

Lemma withScore_cons (z : Z) (x : Candidate) (l : list Candidate) :
  withScore z (x :: l) = (withScore z [x] ++ withScore z l)%list.
Proof.
  unfold withScore. cbn. destruct (cand_score x =? z); reflexivity.
Qed.

Lemma sort_from (l acc : list Candidate) :
  descending acc ->
  let sorted := fold_left (fun acc x => JS.insert byScoreDesc x acc) l acc in
  Permutation (acc ++ l) sorted
  /\ descending sorted
  /\ forall z, withScore z sorted = (withScore z acc ++ withScore z l)%list.
Proof.
  revert acc. induction l as [|x l IH]; intros acc Hacc; cbn [fold_left].
  - rewrite app_nil_r. repeat split; auto.
    intros z. unfold withScore at 3. cbn. now rewrite app_nil_r.
  - destruct (IH _ (insert_descending x acc Hacc)) as (Hp & Hs & Hst).
    repeat split; [|exact Hs|].
    + rewrite <- Hp. rewrite <- Permutation_middle.
      apply (Permutation_app_tail l (insert_perm x acc)).
    + intros z. rewrite Hst, insert_withScore by exact Hacc.
      rewrite (withScore_cons z x l), <- app_assoc. reflexivity.
Qed.

(** [JS.sort] by descending score is a stable sort. *)
Lemma sort_byScoreDesc (l : list Candidate) :
  Permutation l (JS.sort byScoreDesc l)
  /\ descending (JS.sort byScoreDesc l)
  /\ forall z, withScore z (JS.sort byScoreDesc l) = withScore z l.
Proof.
  apply (sort_from l []). constructor.
Qed.

Section Order.
Context {api : URLApi}.
Variable World : Type.
Variable http_get : string -> World -> FetchOutcome * World.
Variable cheerio_load : string -> Document.

(** C8: the sequence that the orchestrator validates is the sequence of
    the discovered candidates sorted by descending score: a permutation
    of it, in descending order of score, in which the candidates of
    equal score keep their order of discovery.  The images requested
    are those of a prefix of that sequence, in that order: all of it
    when no candidate decides the result. *)
Theorem C8_validation_in_stable_descending_order
        (targetUrl : string) (n n0 : Net World) (sp : SocialProfiles)
        (candidates : list Candidate) :
  reachesValidation World http_get cheerio_load targetUrl n sp candidates n0 ->
  let sorted := JS.sort byScoreDesc candidates in
  Permutation candidates sorted
  /\ descending sorted
  /\ (forall z, withScore z sorted = withScore z candidates)
  /\ exists (r : ExtractionResult) (n' : Net World) (k : nat),
      fetchCompanyLogo World http_get cheerio_load targetUrl n = (Ret r, n')
      /\ net_requests n' = (net_requests n0 ++ map cand_url (firstn k sorted))%list
      /\ (r = couldNotIdentify sp /\ firstn k sorted = sorted
          \/ r = tooLargeResult sp
          \/ exists l, r = successResult l sp).
Proof.
  intros Hreach sorted.
  destruct (sort_byScoreDesc candidates) as (Hp & Hs & Hst).
  repeat split; auto.
  rewrite (fetchCompanyLogo_validates _ _ _ _ _ _ _ _ Hreach). fold sorted.
  destruct (validateCandidates_total World http_get sp sorted n0)
    as (chosen & n' & k & -> & Hk & Hres).
  destruct Hres as [[-> Hall]|[->|(l & -> & _)]];
    eexists _, n', k; (split; [reflexivity|]); (split; [exact Hk|]); eauto.
Qed.

End Order.

(** On the site [Sites.threeImages] the candidates are discovered with
    the scores 0, 4, 15 and validated in the order 15, 4; and among
    candidates of equal score the first discovered comes first. *)
Lemma C8_witness :
  JS.sort byScoreDesc Sites.threeCandidates
  = [ mkCandidate "https://shop.example/img/logo.png" 15;
      mkCandidate "https://shop.example/img/brand.png" 4;
      mkCandidate "https://shop.example/img/photo.png" 0 ]
  /\ descending (JS.sort byScoreDesc Sites.threeCandidates)
  /\ JS.sort byScoreDesc
       [mkCandidate "a" 0; mkCandidate "b" 4; mkCandidate "c" 0; mkCandidate "d" 4]
     = [mkCandidate "b" 4; mkCandidate "d" 4; mkCandidate "a" 0; mkCandidate "c" 0].
Proof.
  split; [reflexivity|]. split; [|reflexivity].
  refine (proj1 (proj2 (@C8_validation_in_stable_descending_order Mini.api
            Mini.Web Mini.get Mini.load "https://shop.example"
            (mkNet Sites.threeImages [])
            (afterRequest Mini.Web Mini.get "https://shop.example/"
               (mkNet Sites.threeImages []))
            Sites.facebookOnly Sites.threeCandidates _))).
  exists Sites.shop, (Mini.page Sites.threeImagesPage), Sites.threeImagesPage.
  repeat split; try reflexivity; discriminate.
Defined.

(* ------------------------------------------------------------------ *)
(** ** Classification of the social links *)

Lemma Platform_eqb_spec (a b : Platform) : reflect (a = b) (Platform_eqb a b).
Proof. destruct a, b; constructor; congruence. Qed.

Lemma sp_get_set_same (found : SocialProfiles) (key : Platform) (v : option string) :
  sp_get (sp_set found key v) key = v.
Proof. destruct found, key; reflexivity. Qed.

Lemma sp_get_set_other (found : SocialProfiles) (k key : Platform)
      (v : option string) :
  k <> key -> sp_get (sp_set found k v) key = sp_get found key.
Proof. destruct found, k, key; try reflexivity; congruence. Qed.

Lemma classifyEntry_other (absolute hostname : string) (found : SocialProfiles)
      (k key : Platform) (domains : list string) :
  k <> key ->
  sp_get (classifyEntry absolute hostname found (k, domains)) key
  = sp_get found key.
Proof.
  intros Hk. unfold classifyEntry.
  destruct (JS.truthy _); [reflexivity|].
  destruct (hostMatches _ _); [|reflexivity].
  now apply sp_get_set_other.
Qed.

Lemma classifyEntries_other (absolute hostname : string) (key : Platform)
      (entries : list (Platform * list string)) (found : SocialProfiles) :
  ~ In key (map fst entries) ->
  sp_get (fold_left (classifyEntry absolute hostname) entries found) key
  = sp_get found key.
Proof.
  revert found. induction entries as [|[k d] rest IH]; intros found Hnot;
    [reflexivity|].
  cbn [fold_left]. rewrite IH by (cbn in Hnot; tauto).
  apply classifyEntry_other. cbn in Hnot. tauto.
Qed.

(** The loop over the platforms, read at one field: a field that is
    filled stays; an empty field is filled when the host name matches
    the domains of its platform. *)
Lemma classifyEntries_get (absolute hostname : string) (key : Platform)
      (entries : list (Platform * list string)) (found : SocialProfiles) :
  NoDup (map fst entries) ->
  sp_get (fold_left (classifyEntry absolute hostname) entries found) key
  = if JS.truthy (sp_get found key) then sp_get found key
    else if hostMatches hostname (lookupDomains key entries)
         then Some absolute
         else sp_get found key.
Proof.
  revert found. induction entries as [|[k d] rest IH]; intros found Hnd.
  - cbn. now destruct (JS.truthy _).
  - inversion Hnd as [|? ? Hk Hrest]; subst. cbn [fold_left lookupDomains].
    destruct (Platform_eqb_spec k key) as [->|Hne].
    + rewrite classifyEntries_other by exact Hk.
      unfold classifyEntry.
      destruct (JS.truthy (sp_get found key)) eqn:Ht; [reflexivity|].
      destruct (hostMatches hostname d); [|reflexivity].
      apply sp_get_set_same.
    + rewrite IH by exact Hrest.
      now rewrite classifyEntry_other by exact Hne.
Qed.

Lemma SOCIAL_DOMAINS_NoDup : NoDup (map fst SOCIAL_DOMAINS).
Proof.
  cbn. repeat constructor; cbn; intuition discriminate.
Qed.

Lemma classifyHost_get (absolute hostname : string) (key : Platform)
      (found : SocialProfiles) :
  sp_get (classifyHost absolute hostname found) key
  = if JS.truthy (sp_get found key) then sp_get found key
    else if hostMatches hostname (domainsOf key)
         then Some absolute
         else sp_get found key.
Proof. apply classifyEntries_get, SOCIAL_DOMAINS_NoDup. Qed.

Section Classifier.
Context {api : URLApi}.

(** One anchor, read at one field. *)
Lemma visitAnchor_get (baseUrl : URL) (found : SocialProfiles) (el : Element)
      (key : Platform) :
  sp_get (visitAnchor baseUrl found el) key
  = if JS.truthy (sp_get found key) then sp_get found key
    else match anchorMatch baseUrl key el with
         | Some absolute => Some absolute
         | None => sp_get found key
         end.
Proof.
  unfold visitAnchor, anchorMatch, anchorTarget.
  destruct (JS.truthy (attr el "href")); cbn [negb].
  2:{ now destruct (JS.truthy _). }
  destruct (URL_new_base _ _) as [u|]; [|now destruct (JS.truthy _)].
  destruct (URL_new _) as [u'|]; [|now destruct (JS.truthy _)].
  rewrite classifyHost_get.
  destruct (JS.truthy _); [reflexivity|].
  now destruct (hostMatches _ _).
Qed.

(** The empty string is not a URL. *)
Hypothesis new_empty : URL_new "" = None.

(** The absolute URL of an anchor that resolves is not empty. *)
Lemma anchorMatch_truthy (baseUrl : URL) (key : Platform) (el : Element)
      (absolute : string) :
  anchorMatch baseUrl key el = Some absolute ->
  JS.truthy (Some absolute) = true.
Proof.
  unfold anchorMatch, anchorTarget.
  destruct (JS.truthy (attr el "href")); [|discriminate].
  destruct (URL_new_base _ _) as [u|]; [|discriminate].
  destruct (URL_new (URL_toString u)) as [u'|] eqn:Hre; [|discriminate].
  destruct (hostMatches _ _); [|discriminate].
  intros H; inversion H; subst absolute. cbn.
  destruct (String.eqb_spec (URL_toString u) "") as [He|]; [|reflexivity].
  rewrite He, new_empty in Hre. discriminate.
Qed.

Lemma visitAnchor_wellFilled (baseUrl : URL) (found : SocialProfiles)
      (el : Element) :
  wellFilled found -> wellFilled (visitAnchor baseUrl found el).
Proof.
  intros Hf key. rewrite visitAnchor_get.
  destruct (JS.truthy (sp_get found key)) eqn:Ht; [now right|].
  destruct (anchorMatch baseUrl key el) as [a|] eqn:Hm; [|apply Hf].
  right. eapply anchorMatch_truthy; eauto.
Qed.

(** The traversal of the anchors, read at one field. *)
Lemma visitAnchors_get (baseUrl : URL) (key : Platform) (anchors : list Element)
      (found : SocialProfiles) :
  wellFilled found ->
  sp_get (fold_left (visitAnchor baseUrl) anchors found) key
  = match sp_get found key with
    | Some absolute => Some absolute
    | None => firstMatch baseUrl key anchors
    end.
Proof.
  revert found. induction anchors as [|el rest IH]; intros found Hf.
  - cbn. now destruct (sp_get found key).
  - cbn [fold_left firstMatch].
    rewrite IH by now apply visitAnchor_wellFilled.
    rewrite visitAnchor_get.
    destruct (Hf key) as [Hnone|Htrue].
    + rewrite Hnone. cbn. now destruct (anchorMatch baseUrl key el).
    + rewrite Htrue. now destruct (sp_get found key).
Qed.

Lemma extractSocialProfiles_get (doc : Document) (baseUrl : URL) (key : Platform) :
  sp_get (extractSocialProfiles doc baseUrl) key
  = firstMatch baseUrl key (select_a_href doc).
Proof.
  unfold extractSocialProfiles. rewrite visitAnchors_get.
  - now destruct key.
  - intros k. left. now destruct k.
Qed.

End Classifier.

Lemma endsWith_iff (s p : string) :
  JS.endsWith s p = true <-> exists q, s = (q ++ p)%string.
Proof.
  split.
  - induction s as [|a s IH]; cbn [JS.endsWith].
    + rewrite orb_false_r. intros H. apply String.eqb_eq in H. now exists "".
    + intros H. apply orb_true_iff in H as [H|H].
      * apply String.eqb_eq in H. now exists "".
      * destruct (IH H) as [q ->]. now exists (String a q).
  - intros [q ->]. induction q as [|a q IH].
    + cbn [append]. destruct p; cbn [JS.endsWith]; now rewrite String.eqb_refl.
    + cbn [append JS.endsWith]. rewrite IH. apply orb_true_r.
Qed.

(** The host name matches the domains: it is one of them, or it ends
    with a dot followed by one of them. *)
Lemma hostMatches_iff (hostname : string) (domains : list string) :
  hostMatches hostname domains = true
  <-> exists domain, In domain domains
                     /\ (hostname = domain
                         \/ exists q, hostname = (q ++ "." ++ domain)%string).
Proof.
  unfold hostMatches. rewrite existsb_exists.
  split; intros (d & Hin & H); exists d; (split; [exact Hin|]).
  - apply orb_true_iff in H as [H|H].
    + left. now apply String.eqb_eq.
    + right. now apply endsWith_iff.
  - apply orb_true_iff. destruct H as [->|H].
    + left. apply String.eqb_refl.
    + right. now apply endsWith_iff.
Qed.

Section FirstMatch.
Context {api : URLApi}.

(** C6: given that the empty string is not a URL, a field of the
    social profiles holds the absolute URL of the
    first anchor, in document order, whose href is not empty and
    resolves, and whose lower-cased host name is one of the platform's
    domains or ends with a dot followed by one of them; it is null when
    there is no such anchor.  An anchor fills a field that is still
    null exactly when it matches in this way, and a field that is
    filled is never overwritten.  So m.facebook.com matches facebook
    and notfacebook.com does not. *)
Theorem C6_first_matching_anchor_wins
        (doc : Document) (baseUrl : URL) (key : Platform) :
  URL_new "" = None ->
  sp_get (extractSocialProfiles doc baseUrl) key
  = firstMatch baseUrl key (select_a_href doc)
  /\ (forall (found : SocialProfiles) (el : Element),
         wellFilled found ->
         sp_get (visitAnchor baseUrl found el) key
         = match sp_get found key with
           | Some filled => Some filled
           | None => anchorMatch baseUrl key el
           end)
  /\ (forall (el : Element) (absolute hostname : string),
         anchorTarget baseUrl el = Some (absolute, hostname) ->
         (anchorMatch baseUrl key el = Some absolute
          <-> exists domain,
               In domain (domainsOf key)
               /\ (hostname = domain
                   \/ exists q, hostname = (q ++ "." ++ domain)%string))
         /\ (anchorMatch baseUrl key el = None
             \/ anchorMatch baseUrl key el = Some absolute))
  /\ hostMatches "m.facebook.com" (domainsOf facebook) = true
  /\ hostMatches "notfacebook.com" (domainsOf facebook) = false.
Proof.
  intros Hempty. split; [now apply extractSocialProfiles_get|].
  split; [|split; [|split; reflexivity]].
  - intros found el Hf. rewrite visitAnchor_get.
    destruct (Hf key) as [Hnone|Htrue].
    + rewrite Hnone. cbn. now destruct (anchorMatch baseUrl key el).
    + rewrite Htrue. now destruct (sp_get found key).
  - intros el absolute hostname Ht. unfold anchorMatch. rewrite Ht.
    rewrite <- hostMatches_iff.
    destruct (hostMatches hostname (domainsOf key)); split; auto;
      split; congruence.
Qed.

End FirstMatch.

(* ------------------------------------------------------------------ *)
(** ** The small implementation obeys the laws of the URL class *)

Module MiniLaws.
Import Mini.

Lemma hostChar_facts (c : ascii) :
  hostChar c = true ->
  gt32 c = true /\ inHost c = true /\ JS.lowerChar c = c.
Proof.
  destruct c as [[] [] [] [] [] [] [] []]; cbv; intros H;
    try discriminate; auto.
Qed.

Lemma allChars_app (p : ascii -> bool) (a b : string) :
  allChars p (a ++ b) = allChars p a && allChars p b.
Proof.
  induction a as [|c a IH]; cbn; [reflexivity|].
  now rewrite IH, andb_assoc.
Qed.

Lemma allChars_impl (p q : ascii -> bool) (s : string) :
  (forall c, p c = true -> q c = true) ->
  allChars p s = true -> allChars q s = true.
Proof.
  intros Hpq. induction s as [|c s IH]; cbn; [reflexivity|].
  intros H. apply andb_true_iff in H as [Hc Hs].
  now rewrite (Hpq c Hc), IH.
Qed.

Lemma stripStart_id (p : ascii -> bool) (s : string) :
  allChars (fun c => negb (p c)) s = true -> JS.stripStart p s = s.
Proof.
  destruct s as [|c s]; cbn; [reflexivity|].
  intros H. apply andb_true_iff in H as [Hc _].
  apply negb_true_iff in Hc. now rewrite Hc.
Qed.

Lemma stripEnd_id (p : ascii -> bool) (s : string) :
  allChars (fun c => negb (p c)) s = true -> JS.stripEnd p s = s.
Proof.
  induction s as [|c s IH]; cbn; [reflexivity|].
  intros H. apply andb_true_iff in H as [Hc Hs].
  apply negb_true_iff in Hc. rewrite (IH Hs), Hc. now destruct s.
Qed.

Lemma stripC0_id (s : string) : allChars gt32 s = true -> stripC0 s = s.
Proof.
  intros H. unfold stripC0.
  assert (H' : allChars (fun c => negb (negb (gt32 c))) s = true)
    by (eapply allChars_impl; [|exact H]; intros c Hc; now rewrite Hc).
  now rewrite (stripStart_id _ _ H'), (stripEnd_id _ _ H').
Qed.

Lemma check_some (r : RawUrl) :
  wf r = true -> exists u, check r = Some u /\ proj1_sig u = r.
Proof.
  intros H. unfold check.
  generalize (@eq_refl bool (wf r)).
  generalize (wf r) at 2 3.
  intros b. destruct b; intros E.
  - eexists; split; reflexivity.
  - congruence.
Qed.

Lemma toLowerCase_host (h : string) :
  allChars hostChar h = true -> JS.toLowerCase h = h.
Proof.
  induction h as [|c h IH]; cbn; [reflexivity|].
  intros H. apply andb_true_iff in H as [Hc Hh].
  destruct (hostChar_facts c Hc) as (_ & _ & ->). now rewrite IH.
Qed.

(** Splitting the host from a path that starts with a slash. *)
Lemma split_host (h rest : string) :
  allChars hostChar h = true ->
  takeWhile inHost (h ++ String "/" rest) = h
  /\ dropWhile inHost (h ++ String "/" rest) = String "/" rest.
Proof.
  induction h as [|c h IH]; cbn; [auto|].
  intros H. apply andb_true_iff in H as [Hc Hh].
  destruct (hostChar_facts c Hc) as (_ & -> & _).
  destruct (IH Hh) as [-> ->]. auto.
Qed.

Lemma parseAuthority_wf (secure : bool) (r : RawUrl) :
  wf r = true ->
  exists u, parseAuthority secure (raw_host r ++ raw_path r) = Some u
            /\ hostname u = raw_host r.
Proof.
  intros H. pose proof H as Hwf. unfold wf in H.
  repeat (apply andb_true_iff in H as [H ?]).
  destruct (raw_path r) as [|c rest] eqn:Hp; [discriminate|].
  assert (c = "/"%char) as ->.
  { cbn in H1. apply andb_true_iff in H1 as [H1 _].
    now apply Ascii.eqb_eq in H1. }
  unfold parseAuthority.
  destruct (split_host (raw_host r) rest) as [-> ->]; [assumption|].
  cbn [isSlash Ascii.eqb orb]. rewrite toLowerCase_host by assumption.
  cbn.
  destruct (check_some (mkRaw secure (raw_host r) (String "/" rest)))
    as (u & Hu & Hr).
  - unfold wf; cbn [raw_host raw_path]. rewrite <- Hp.
    unfold wf in Hwf. exact Hwf.
  - exists u. split; [exact Hu|]. unfold hostname. now rewrite Hr.
Qed.

Lemma toString_gt32 (u : Url) : allChars gt32 (toString u) = true.
Proof.
  destruct u as [r H]. unfold toString; cbn [proj1_sig].
  unfold wf in H. repeat (apply andb_true_iff in H as [H ?]).
  rewrite allChars_app, allChars_app.
  assert (Hh : allChars gt32 (raw_host r) = true)
    by (eapply allChars_impl; [|eassumption]; intros c Hc;
        apply (hostChar_facts c Hc)).
  rewrite Hh. destruct (raw_secure r); cbn; assumption.
Qed.

Lemma new_toString (u : Url) :
  exists u', new (toString u) = Some u' /\ hostname u' = hostname u.
Proof.
  unfold new. rewrite (stripC0_id _ (toString_gt32 u)), (toString_gt32 u).
  destruct u as [r H]. unfold toString, hostname at 2; cbn [proj1_sig].
  unfold parseAbsolute.
  assert (Hnil : forall s, JS.startsWith s "" = true) by (now intros []).
  destruct (raw_secure r); cbn [append JS.startsWith Ascii.eqb Bool.eqb andb skip];
    rewrite Hnil; now apply parseAuthority_wf.
Qed.

Lemma startsWith_slash_app (a b : string) :
  JS.startsWith a "/" = true -> JS.startsWith (a ++ b) "/" = true.
Proof. apply JSFacts.startsWith_app. Qed.

Lemma takeWhile_path (q : ascii -> bool) (p : string) :
  q "/"%char = true ->
  JS.startsWith p "/" = true -> allChars gt32 p = true ->
  JS.startsWith (takeWhile q p) "/" = true
  /\ allChars gt32 (takeWhile q p) = true.
Proof.
  intros Hq Hs Hall. split.
  - destruct p as [|c p]; [discriminate|]. cbn in Hs.
    apply andb_true_iff in Hs as [Hc _]. apply Ascii.eqb_eq in Hc. subst c.
    cbn. rewrite Hq. cbn. now destruct (takeWhile q p).
  - clear Hs. induction p as [|c p IH]; cbn [takeWhile allChars]; [reflexivity|].
    cbn [allChars] in Hall. apply andb_true_iff in Hall as [Hc Hp].
    destruct (q c); cbn [allChars]; [|reflexivity]. now rewrite Hc, IH.
Qed.

Lemma dirOf_path (p : string) :
  JS.startsWith p "/" = true -> allChars gt32 p = true ->
  JS.startsWith (dirOf p) "/" = true /\ allChars gt32 (dirOf p) = true.
Proof.
  intros Hs Hall. split.
  - destruct p as [|c p]; [discriminate|]. cbn in Hs.
    apply andb_true_iff in Hs as [Hc _]. apply Ascii.eqb_eq in Hc. subst c.
    cbn [dirOf]. destruct (dirOf p) as [|d [|e rest]]; reflexivity.
  - clear Hs. induction p as [|c p IH]; cbn [dirOf]; [reflexivity|].
    cbn [allChars] in Hall. apply andb_true_iff in Hall as [Hc Hp].
    specialize (IH Hp).
    destruct (dirOf p) as [|d rest].
    + destruct (Ascii.eqb c "/"); reflexivity.
    + change (gt32 c && allChars gt32 (String d rest) = true).
      now rewrite Hc, IH.
Qed.

Lemma relativePath_wf (basePath s : string) :
  JS.startsWith basePath "/" = true -> allChars gt32 basePath = true ->
  allChars gt32 s = true ->
  JS.startsWith (relativePath basePath s) "/" = true
  /\ allChars gt32 (relativePath basePath s) = true.
Proof.
  intros Hs Hall Hsall. unfold relativePath.
  destruct s as [|c rest].
  - now apply takeWhile_path.
  - pose proof Hsall as Hcr. cbn [allChars] in Hcr.
    apply andb_true_iff in Hcr as [Hc Hrest].
    destruct (isSlash c);
      [split; [now destruct rest | cbn [allChars]; now rewrite Hrest]|].
    destruct (isQuery c);
      [|destruct (isHash c)].
    + destruct (takeWhile_path (fun c => negb (isQuery c || isHash c)) basePath)
        as [H1 H2]; auto.
      split; [now apply startsWith_slash_app|].
      now rewrite allChars_app, H2, Hsall.
    + destruct (takeWhile_path (fun c => negb (isHash c)) basePath)
        as [H1 H2]; auto.
      split; [now apply startsWith_slash_app|].
      now rewrite allChars_app, H2, Hsall.
    + destruct (takeWhile_path (fun c => negb (isQuery c || isHash c)) basePath)
        as [H1 H2]; auto.
      destruct (dirOf_path _ H1 H2) as [H3 H4].
      split; [now apply startsWith_slash_app|].
      now rewrite allChars_app, H4, Hsall.
Qed.

Lemma isRelativeReference_gt32 (href : string) :
  isRelativeReference href = true -> allChars gt32 href = true.
Proof.
  unfold isRelativeReference. intros H.
  repeat (apply andb_true_iff in H as [H ?]).
  exact H.
Qed.

Lemma new_base_relative (href : string) (base : Url) :
  isRelativeReference href = true ->
  hostname base <> "" ->
  exists u, new_base href base = Some u /\ hostname u = hostname base.
Proof.
  intros Hrel _. pose proof (isRelativeReference_gt32 _ Hrel) as Hall.
  unfold new_base. rewrite (stripC0_id _ Hall), Hrel.
  destruct base as [b Hb]. cbn [proj1_sig]. unfold hostname at 2; cbn [proj1_sig].
  pose proof Hb as H. unfold wf in H.
  repeat (apply andb_true_iff in H as [H ?]).
  destruct (relativePath_wf (raw_path b) href) as [H3 H4]; auto.
  destruct (check_some (mkRaw (raw_secure b) (raw_host b)
                          (relativePath (raw_path b) href)))
    as (u & Hu & Hr).
  - unfold wf; cbn [raw_host raw_path]. now rewrite H, H2, H3, H4.
  - exists u. split; [exact Hu|]. unfold hostname. now rewrite Hr.
Qed.

#[export] Instance laws : URLLaws api.
Proof.
  constructor.
  - reflexivity.
  - exact new_toString.
  - exact new_base_relative.
Qed.

End MiniLaws.

(** On a page with links to m.facebook.com, facebook.com,
    notfacebook.com and x.com, in this order, the facebook field holds
    the first link and the twitter field the last. *)
Lemma C6_witness :
  sp_get (@extractSocialProfiles Mini.api (Mini.load Sites.socialPage) Sites.shop)
         facebook
  = Some "https://m.facebook.com/acme"
  /\ @extractSocialProfiles Mini.api (Mini.load Sites.socialPage) Sites.shop
     = sp_set (sp_set emptySocialProfiles facebook
                      (Some "https://m.facebook.com/acme"))
              twitter (Some "https://x.com/acme").
Proof.
  split; [|vm_compute; reflexivity].
  rewrite (proj1 (@C6_first_matching_anchor_wins Mini.api
                    (Mini.load Sites.socialPage) Sites.shop facebook eq_refl)).
  vm_compute. reflexivity.
Defined.

(* ------------------------------------------------------------------ *)
(** ** A page that lives on the domain of a platform *)

Section OwnDomain.
Context {api : URLApi} {laws : URLLaws api}.

Lemma firstMatch_app (baseUrl : URL) (key : Platform) (pre rest : list Element) :
  firstMatch baseUrl key (pre ++ rest)
  = match firstMatch baseUrl key pre with
    | Some earlier => Some earlier
    | None => firstMatch baseUrl key rest
    end.
Proof.
  induction pre as [|el pre IH]; cbn [app firstMatch]; [reflexivity|].
  now destruct (anchorMatch baseUrl key el).
Qed.

(** An anchor with a relative href matches the platform of the base. *)
Lemma relative_anchor_matches (baseUrl : URL) (key : Platform) (el : Element)
      (href : string) :
  hostMatches (JS.toLowerCase (URL_hostname baseUrl)) (domainsOf key) = true ->
  attr el "href" = Some href ->
  isRelativeReference href = true ->
  exists u, URL_new_base href baseUrl = Some u
            /\ anchorMatch baseUrl key el = Some (URL_toString u).
Proof.
  intros Hbase Hattr Hrel.
  assert (Hhost : URL_hostname baseUrl <> "").
  { intros He. rewrite He in Hbase. now destruct key. }
  assert (Htruthy : JS.truthy (Some href) = true).
  { unfold isRelativeReference in Hrel.
    repeat (apply andb_true_iff in Hrel as [Hrel ?]).
    assumption. }
  destruct (URL_relative href baseUrl Hrel Hhost) as (u & Hu & Hsame).
  destruct (URL_reparse u) as (u' & Hu' & Hsame').
  exists u. split; [exact Hu|].
  unfold anchorMatch, anchorTarget, JS.orEmpty.
  rewrite Hattr, Htruthy, Hu, Hu', Hsame', Hsame, Hbase. reflexivity.
Qed.

(** C10: when the host name of the base URL is one of the domains of a
    platform, or a subdomain of one, every anchor with a relative href
    matches that platform, its absolute URL being on the host of the
    base; the field of the platform holds the first matching anchor in
    document order, so it is filled as soon as the page has an anchor
    with a relative href, and it holds that internal link unless an
    anchor in front of it matches the platform as well. *)
Theorem C10_internal_links_fill_the_platform_of_the_base
        (doc : Document) (baseUrl : URL) (key : Platform) :
  hostMatches (JS.toLowerCase (URL_hostname baseUrl)) (domainsOf key) = true ->
  (forall (el : Element) (href : string),
      attr el "href" = Some href ->
      isRelativeReference href = true ->
      exists u, URL_new_base href baseUrl = Some u
                /\ URL_hostname u = URL_hostname baseUrl
                /\ anchorMatch baseUrl key el = Some (URL_toString u))
  /\ sp_get (extractSocialProfiles doc baseUrl) key
     = firstMatch baseUrl key (select_a_href doc)
  /\ (forall (pre post : list Element) (el : Element) (href : string),
         select_a_href doc = (pre ++ el :: post)%list ->
         attr el "href" = Some href ->
         isRelativeReference href = true ->
         exists u, URL_new_base href baseUrl = Some u
                   /\ sp_get (extractSocialProfiles doc baseUrl) key
                      = match firstMatch baseUrl key pre with
                        | Some earlier => Some earlier
                        | None => Some (URL_toString u)
                        end).
Proof.
  intros Hbase. split; [|split].
  - intros el href Hattr Hrel.
    destruct (relative_anchor_matches baseUrl key el href Hbase Hattr Hrel)
      as (u & Hu & Hm).
    exists u. split; [exact Hu|]. split; [|exact Hm].
    assert (Hhost : URL_hostname baseUrl <> "").
    { intros He. rewrite He in Hbase. now destruct key. }
    destruct (URL_relative href baseUrl Hrel Hhost) as (u0 & Hu0 & Hsame).
    congruence.
  - apply extractSocialProfiles_get, URL_new_empty.
  - intros pre post el href Hsel Hattr Hrel.
    destruct (relative_anchor_matches baseUrl key el href Hbase Hattr Hrel)
      as (u & Hu & Hm).
    exists u. split; [exact Hu|].
    rewrite (extractSocialProfiles_get URL_new_empty), Hsel, firstMatch_app.
    cbn [firstMatch]. now rewrite Hm.
Qed.

End OwnDomain.

(** On a page at https://facebook.com/somepage whose first link is the
    internal link /about, the facebook field holds that link. *)
Lemma C10_witness :
  @extractSocialProfiles Mini.api (Mini.load Sites.navigationPage)
    Sites.facebookPage
  = sp_set (sp_set emptySocialProfiles facebook
                   (Some "https://facebook.com/about"))
           twitter (Some "https://twitter.com/acme")
  /\ sp_get (@extractSocialProfiles Mini.api (Mini.load Sites.navigationPage)
               Sites.facebookPage) facebook
     = Some "https://facebook.com/about".
Proof.
  split; [vm_compute; reflexivity|].
  assert (Hbase : hostMatches
                    (JS.toLowerCase (@URL_hostname Mini.api Sites.facebookPage))
                    (domainsOf facebook) = true)
    by (vm_compute; reflexivity).
  assert (Hsel : select_a_href (Mini.load Sites.navigationPage)
                 = ([] ++ mkElement "a" [("href", "/about")]
                       :: skipn 1 (select_a_href (Mini.load Sites.navigationPage)))%list)
    by (vm_compute; reflexivity).
  assert (Hrel : isRelativeReference "/about" = true)
    by (vm_compute; reflexivity).
  destruct (proj2 (proj2 (@C10_internal_links_fill_the_platform_of_the_base
                            Mini.api MiniLaws.laws
                            (Mini.load Sites.navigationPage)
                            Sites.facebookPage facebook Hbase))
                  [] _ _ "/about" Hsel eq_refl Hrel)
    as (u & Hu & Hget).
  rewrite Hget. cbn [firstMatch].
  assert (Hs : option_map (@URL_toString Mini.api)
                 (@URL_new_base Mini.api "/about" Sites.facebookPage)
               = Some "https://facebook.com/about")
    by (vm_compute; reflexivity).
  rewrite Hu in Hs. exact Hs.
Defined.

(* ------------------------------------------------------------------ *)
(** ** The score and the filters of the scan *)

Lemma startsWith_prefix (s p : string) :
  JS.startsWith s p = true -> exists t, s = (p ++ t)%string.
Proof.
  revert s. induction p as [|b p IH]; intros s H.
  - now exists s.
  - destruct s as [|a s]; [discriminate|]. cbn [JS.startsWith] in H.
    apply andb_true_iff in H as [Hab Hp].
    apply Ascii.eqb_eq in Hab. subst b.
    destruct (IH s Hp) as [t ->]. now exists t.
Qed.

(** [s.includes(p)] holds exactly when [p] occurs in [s]. *)
Lemma includes_iff (s p : string) :
  JS.includes s p = true <-> exists a b, s = (a ++ p ++ b)%string.
Proof.
  split.
  - induction s as [|c s IH]; cbn [JS.includes]; intros H.
    + rewrite orb_false_r in H. apply startsWith_prefix in H as [t Ht].
      now exists "", t.
    + apply orb_true_iff in H as [H|H].
      * apply startsWith_prefix in H as [t Ht]. now exists "", t.
      * destruct (IH H) as (a & b & ->). now exists (String c a), b.
  - intros (a & b & ->). apply JSFacts.includes_infix.
Qed.

Lemma append_assoc (a b c : string) :
  ((a ++ b) ++ c = a ++ b ++ c)%string.
Proof. induction a as [|x a IH]; cbn; [reflexivity | now rewrite IH]. Qed.

(** A text that holds [/logo.] holds [logo]. *)
Lemma includes_logo_path (src : string) :
  JS.includes src "/logo." = true -> JS.includes src "logo" = true.
Proof.
  intros H. apply includes_iff in H as (a & b & ->).
  apply includes_iff. exists (a ++ "/")%string, ("." ++ b)%string.
  now rewrite append_assoc.
Qed.

(** X1: the score of an image lies between 0 and 22, and 22 is reached;
    a source that holds [/logo.] scores 15 or more, and an image that
    has the word logo in none of its four texts scores 7 or less: so an
    image at a path like /img/logo.png is always validated before every
    image that does not mention a logo. *)
Theorem X1_score_bounds (src alt id cls : string) :
  let score := scoreImageCandidate src alt id cls in
  0 <= score <= 22
  /\ bonus (JS.includes src "/logo.") 15 <= score
  /\ score <= 7 + bonus (JS.includes (haystackOf src alt id cls) "logo") 15
  /\ scoreImageCandidate "/logo.png" "brand" "header" "site" = 22.
Proof.
  cbv zeta. rewrite scoreImageCandidate_additive. cbv zeta.
  set (h := haystackOf src alt id cls).
  assert (Hpath : JS.includes src "/logo." = true -> JS.includes h "logo" = true).
  { intros H. unfold h, haystackOf.
    now apply JSFacts.includes_app_l, includes_logo_path. }
  destruct (JS.includes src "/logo."); [rewrite (Hpath eq_refl)|];
    destruct (JS.includes h "logo"), (JS.includes h "brand"),
      (JS.includes h "header" || JS.includes h "navbar"),
      (JS.includes h "site" || JS.includes h "main");
    cbn [bonus]; (repeat split; try lia); reflexivity.
Qed.

(** The test on the text that follows the extension. *)
Lemma extEnd_iff (rest : string) : extEnd rest = true <-> endsExtension rest.
Proof.
  unfold endsExtension. destruct rest as [|c rest]; cbn [extEnd].
  - split; auto.
  - split.
    + intros H. right. exists rest.
      apply orb_true_iff in H as [H|H]; apply Ascii.eqb_eq in H; subst c; auto.
    + intros [H|[rest' [H|H]]]; [discriminate| |]; inversion H; reflexivity.
Qed.

(** The extension, read at the start of a text. *)
Lemma extHere_iff (s : string) :
  extHere s = true
  <-> exists e rest, s = (e ++ rest)%string
                     /\ In e [".jpg"; ".jpeg"; ".png"] /\ extEnd rest = true.
Proof.
  split.
  - intros H.
    destruct s as [|c1 s]; [discriminate|].
    destruct c1 as [[] [] [] [] [] [] [] []]; try discriminate.
    destruct s as [|c2 s]; [discriminate|].
    destruct c2 as [[] [] [] [] [] [] [] []]; try discriminate;
      (destruct s as [|c3 s]; [discriminate|]);
      destruct c3 as [[] [] [] [] [] [] [] []]; try discriminate;
      (destruct s as [|c4 s]; [discriminate|]);
      destruct c4 as [[] [] [] [] [] [] [] []]; try discriminate;
      first
        [ exists ".png", s; split; [reflexivity|]; split; [cbn; tauto | exact H]
        | exists ".jpg", s; split; [reflexivity|]; split; [cbn; tauto | exact H]
        | destruct s as [|c5 s]; [discriminate|];
          destruct c5 as [[] [] [] [] [] [] [] []]; try discriminate;
          exists ".jpeg", s; split; [reflexivity|]; split; [cbn; tauto | exact H] ].
  - intros (e & rest & -> & [<-|[<-|[<-|[]]]] & H); exact H.
Qed.

(** X2: the test of the extension, the regular expression
    [\.(jpe?g|png)(\?|#|$)], holds of a text exactly when one of
    [.jpg], [.jpeg] and [.png] occurs in it and is followed at once by
    the end of the text, a question mark or a hash: a query or a
    fragment behind the extension does not disqualify an image. *)
Theorem X2_extension_test_reads (s : string) :
  hasImageExtension s = true
  <-> exists before e rest,
        s = (before ++ e ++ rest)%string
        /\ In e [".jpg"; ".jpeg"; ".png"]
        /\ endsExtension rest.
Proof.
  split.
  - induction s as [|c s IH]; intros H.
    + discriminate.
    + cbn [hasImageExtension] in H. apply orb_true_iff in H as [H|H].
      * apply extHere_iff in H as (e & rest & Hs & Hin & Hend).
        exists "", e, rest. cbn [append].
        split; [exact Hs|]. split; [exact Hin | now apply extEnd_iff].
      * destruct (IH H) as (before & e & rest & -> & Hin & Hend).
        exists (String c before), e, rest. auto.
  - intros (before & e & rest & -> & Hin & Hend).
    apply extEnd_iff in Hend.
    assert (Hhere : extHere (e ++ rest) = true)
      by (apply extHere_iff; eauto).
    induction before as [|c before IH].
    + cbn [append]. destruct (e ++ rest)%string; [discriminate|].
      cbn [hasImageExtension]. now rewrite Hhere.
    + cbn [append hasImageExtension]. rewrite IH. apply orb_true_r.
Qed.

(* ------------------------------------------------------------------ *)
(** ** The object of the validator, and the outcomes of a run *)

(** What an accepted verdict says of the response. *)
Lemma validatorSpec_accepted_inv (imageUrl : string) (o : FetchOutcome) (l : Logo) :
  validatorSpec imageUrl o = Accepted l ->
  exists res : Response,
    o = Responded res
    /\ res_ok res = true
    /\ res_body res = Some (logo_data l)
    /\ logo_url l = imageUrl
    /\ logo_contentType l = JS.toLowerCase (JS.orEmpty (res_contentType res))
    /\ acceptedPrefix (logo_contentType l) = true
    /\ logo_size l = Z.of_nat (String.length (logo_data l))
    /\ 0 <= logo_size l < MAX_LOGO_BYTES.
Proof.
  unfold validatorSpec. intros H.
  destruct o as [|res]; [discriminate|].
  destruct (res_ok res) eqn:Hok; [|discriminate].
  destruct (acceptedContentType _) eqn:Hct; [|discriminate].
  destruct (res_body res) as [body|] eqn:Hbody; [|discriminate].
  cbn [negb] in H.
  destruct (Z.ltb_spec (Z.of_nat (String.length body)) (2 * 1024 * 1024))
    as [Hlt|]; [|discriminate].
  inversion H; subst l. cbn [logo_url logo_size logo_contentType logo_data].
  exists res. repeat split; auto; lia.
Qed.

Section ValidatorObject.
Variable World : Type.
Variable http_get : string -> World -> FetchOutcome * World.

(** X4: the object that the validator returns is consistent: [ok]
    holds exactly when there is a logo, and exactly when there is no
    reason; [tooLarge] holds exactly when the reason is too_large, and
    exactly when a size is reported, which is then 2 MiB or more; the
    logo carries the URL that was asked for, the number of its bytes as
    its size, and is shorter than 2 MiB; the reason is one of four.  So
    the test by which the orchestrator accepts a logo ([ok], not
    [tooLarge], and a logo) holds exactly when [ok] does. *)
Theorem X4_result_object_is_consistent (imageUrl : string) (n : Net World) :
  exists lc : LogoCheck,
    downloadAndValidateImage World http_get imageUrl n
    = (Ret lc, afterRequest World http_get imageUrl n)
    /\ lc_ok lc = isSome (lc_logo lc)
    /\ lc_ok lc = negb (isSome (lc_reason lc))
    /\ isTrue (lc_tooLarge lc) = isSome (lc_size lc)
    /\ lc_ok lc && negb (isTrue (lc_tooLarge lc)) && isSome (lc_logo lc)
       = lc_ok lc
    /\ (isTrue (lc_tooLarge lc) = true <-> lc_reason lc = Some "too_large")
    /\ (forall z, lc_size lc = Some z -> MAX_LOGO_BYTES <= z)
    /\ (forall l, lc_logo lc = Some l ->
          logo_url l = imageUrl
          /\ logo_size l = Z.of_nat (String.length (logo_data l))
          /\ 0 <= logo_size l < MAX_LOGO_BYTES)
    /\ (forall reason, lc_reason lc = Some reason ->
          In reason ["fetch_failed"; "unsupported_type"; "too_large";
                     "download_error"]).
Proof.
  eexists. split; [apply downloadAndValidateImage_refines|].
  destruct (validatorSpec imageUrl (fst (http_get imageUrl (net_world n))))
    as [l|reason size] eqn:Hv.
  - apply validatorSpec_accepted_inv in Hv
      as (res & _ & _ & _ & Hurl & _ & _ & Hsize & Hlt).
    cbn [resultObject lc_ok lc_logo lc_reason lc_size lc_tooLarge
         isSome isTrue negb andb].
    do 4 (split; [reflexivity|]).
    split; [split; discriminate|].
    split; [discriminate|].
    split; [|discriminate].
    intros l' Hl'. inversion Hl'; subst l'. auto.
  - assert (Hcases :
      (reason = "download_error" /\ size = None)
      \/ (reason = "fetch_failed" /\ size = None)
      \/ (reason = "unsupported_type" /\ size = None)
      \/ (reason = "too_large"
          /\ exists z, size = Some z /\ MAX_LOGO_BYTES <= z)).
    { unfold validatorSpec in Hv.
      destruct (fst _) as [|res]; [inversion Hv; auto|].
      destruct (res_ok res); cbn [negb] in Hv; [|inversion Hv; auto].
      destruct (acceptedContentType _); cbn [negb] in Hv; [|inversion Hv; auto].
      destruct (res_body res) as [body|]; [|inversion Hv; auto].
      destruct (Z.ltb_spec (Z.of_nat (String.length body)) (2 * 1024 * 1024))
        as [|Hge]; [discriminate|].
      inversion Hv. right; right; right. split; [reflexivity|].
      eexists; split; [reflexivity | exact Hge]. }
    destruct Hcases as [[-> ->]|[[-> ->]|[[-> ->]|[-> (z & -> & Hz)]]]];
      cbn [resultObject lc_ok lc_logo lc_reason lc_size lc_tooLarge
           isSome isTrue negb andb String.eqb Ascii.eqb Bool.eqb];
      (do 4 (split; [reflexivity|]));
      (split; [split; intros Hx; (discriminate Hx || reflexivity)|]);
      (split; [intros z' Hz';
               (discriminate Hz' || (inversion Hz'; subst z'; exact Hz))|]);
      (split; [discriminate|]);
      intros r Hr; inversion Hr; subst r; cbn [In]; tauto.
Qed.

End ValidatorObject.

Section Outcomes.
Context {api : URLApi}.
Variable World : Type.
Variable http_get : string -> World -> FetchOutcome * World.
Variable cheerio_load : string -> Document.

(** The traversal of the images, as a filter. *)
Lemma scanImages_filter (parsedUrl : URL) (imgs : list Element)
      (candidates : list Candidate) :
  scanImages parsedUrl imgs candidates
  = if existsb (unresolvable parsedUrl) imgs
    then Throw "TypeError: Invalid URL"
    else Ret (candidates ++ candidatesOf parsedUrl (filter qualifies imgs))%list.
Proof.
  revert candidates. induction imgs as [|el rest IH]; intros candidates.
  - cbn. now rewrite app_nil_r.
  - rewrite scanImages_step. cbv zeta. cbn [existsb filter].
    unfold unresolvable at 1.
    set (src := JS.trim (JS.orEmpty (attr el "src"))).
    assert (Hq : String.eqb src "" || JS.startsWith src "data:"
                 || negb (hasImageExtension (JS.toLowerCase src))
                 = negb (qualifies el)).
    { unfold qualifies. fold src.
      now destruct (String.eqb src "" || JS.startsWith src "data:"),
        (hasImageExtension (JS.toLowerCase src)). }
    rewrite Hq. destruct (qualifies el); cbn [negb andb orb]; [|apply IH].
    unfold candidatesOf. cbn [flat_map]. fold src.
    destruct (URL_new_base src parsedUrl) as [u|]; cbn [isSome negb orb];
      [|reflexivity].
    rewrite IH. unfold candidatesOf.
    destruct (existsb _ rest); [reflexivity|].
    now rewrite <- app_assoc.
Qed.

(** When every image that passes the filters resolves, each of them
    gives one candidate. *)
Lemma candidatesOf_resolved (parsedUrl : URL) (imgs : list Element) :
  existsb (unresolvable parsedUrl) imgs = false ->
  map cand_score (candidatesOf parsedUrl (filter qualifies imgs))
  = map candidateScore (filter qualifies imgs).
Proof.
  induction imgs as [|el rest IH]; [reflexivity|].
  cbn [existsb filter]. unfold unresolvable at 1.
  destruct (qualifies el); cbn [andb orb]; [|exact IH].
  unfold candidatesOf in *. cbn [flat_map].
  destruct (URL_new_base _ parsedUrl) as [u|]; cbn [isSome negb orb];
    [|discriminate].
  intros H. cbn [app map cand_score]. now rewrite (IH H).
Qed.

(** X3: the traversal of the images either is abandoned, when the
    source of an image that passes the filters does not resolve, or
    collects the candidates of the images that pass the filters, in
    document order, behind the candidates it started with; in that case
    there is one candidate for each image that passes the filters, with
    the score of that image.  An image with an empty source, a data URL
    or another extension is never a candidate, and there are never more
    candidates than images. *)
Theorem X3_scan_collects_the_qualifying_images
        (parsedUrl : URL) (imgs : list Element) (candidates : list Candidate) :
  let found := candidatesOf parsedUrl (filter qualifies imgs) in
  scanImages parsedUrl imgs candidates
  = (if existsb (unresolvable parsedUrl) imgs
     then Throw "TypeError: Invalid URL"
     else Ret (candidates ++ found)%list)
  /\ (existsb (unresolvable parsedUrl) imgs = false ->
      map cand_score found = map candidateScore (filter qualifies imgs))
  /\ (length found <= length imgs)%nat.
Proof.
  cbv zeta. split; [apply scanImages_filter|].
  split; [apply candidatesOf_resolved|].
  induction imgs as [|el rest IH]; [reflexivity|].
  cbn [filter length]. destruct (qualifies el); [|lia].
  unfold candidatesOf in *. cbn [flat_map].
  destruct (URL_new_base _ parsedUrl); cbn [app length]; lia.
Qed.

(** The run up to the answer of the site. *)
Lemma fetchCompanyLogo_page (targetUrl : string) (n : Net World) (parsedUrl : URL) :
  notBlank targetUrl = true ->
  URL_new targetUrl = Some parsedUrl ->
  fetchCompanyLogo World http_get cheerio_load targetUrl n
  = tryCatch World (fetchAndExtract World http_get cheerio_load parsedUrl)
      (fun _ => ret World (couldNotIdentify emptySocialProfiles)) n.
Proof.
  intros Hnb Hurl. unfold fetchCompanyLogo. unfold notBlank in Hnb.
  apply negb_true_iff in Hnb. now rewrite Hnb, Hurl.
Qed.

(** X5: when the site cannot be reached, answers with an error status,
    or its body cannot be read, the result is the failure "could not
    identify logo" with all-null social profiles, after the one request
    for the page: the body of an error page is not looked at, neither
    for social links nor for images. *)
Theorem X5_unusable_page_ends_the_run
        (targetUrl : string) (n : Net World) (parsedUrl : URL) :
  notBlank targetUrl = true ->
  URL_new targetUrl = Some parsedUrl ->
  match fst (http_get (URL_toString parsedUrl) (net_world n)) with
  | NetworkError => True
  | Responded pageRes => res_ok pageRes = false \/ res_body pageRes = None
  end ->
  fetchCompanyLogo World http_get cheerio_load targetUrl n
  = (Ret (couldNotIdentify emptySocialProfiles),
     afterRequest World http_get (URL_toString parsedUrl) n).
Proof.
  intros Hnb Hurl Hpage. rewrite (fetchCompanyLogo_page _ _ _ Hnb Hurl).
  unfold tryCatch, fetchAndExtract, bind at 1, fetch, afterRequest.
  destruct (http_get (URL_toString parsedUrl) (net_world n)) as [[|pageRes] w];
    cbn [fst snd] in *; [reflexivity|].
  destruct (res_ok pageRes) eqn:Hok; cbn [negb]; [|reflexivity].
  destruct Hpage as [Hno|Hbody]; [discriminate|].
  unfold bind at 1, readBody. now rewrite Hbody.
Qed.

(** X6: when no image of the page passes the filters, the result is
    the failure "could not identify logo" with the social profiles of
    the page, and no image is requested. *)
Theorem X6_profiles_without_a_candidate
        (targetUrl : string) (n : Net World) (parsedUrl : URL)
        (pageRes : Response) (html : string) :
  notBlank targetUrl = true ->
  URL_new targetUrl = Some parsedUrl ->
  fst (http_get (URL_toString parsedUrl) (net_world n)) = Responded pageRes ->
  res_ok pageRes = true ->
  res_body pageRes = Some html ->
  filter qualifies (select_img (cheerio_load html)) = [] ->
  fetchCompanyLogo World http_get cheerio_load targetUrl n
  = (Ret (couldNotIdentify (extractSocialProfiles (cheerio_load html) parsedUrl)),
     afterRequest World http_get (URL_toString parsedUrl) n).
Proof.
  intros Hnb Hurl Hget Hok Hbody Hnone.
  rewrite (fetchCompanyLogo_page _ _ _ Hnb Hurl).
  unfold tryCatch, fetchAndExtract, bind at 1, fetch, afterRequest.
  destruct (http_get (URL_toString parsedUrl) (net_world n)) as [o w].
  cbn [fst snd] in *. subst o. rewrite Hok. cbn [negb].
  unfold bind at 1, readBody. rewrite Hbody. unfold ret at 1.
  unfold bind at 1, liftExc. rewrite scanImages_filter, Hnone.
  assert (Hres : existsb (unresolvable parsedUrl) (select_img (cheerio_load html))
                 = false).
  { assert (Hall : forall imgs, filter qualifies imgs = [] ->
                                existsb (unresolvable parsedUrl) imgs = false).
    { induction imgs as [|el rest IH]; [reflexivity|].
      cbn [filter existsb]. unfold unresolvable at 1.
      destruct (qualifies el); [discriminate|]. exact IH. }
    now apply Hall. }
  rewrite Hres. reflexivity.
Qed.

(** X7: when the candidates in front of a candidate, in descending
    order of score, are rejected for a reason other than their size, and
    the response for that candidate is successful, of an accepted type
    and shorter than 2 MiB, the result is the success with that image
    (its URL, the number of its bytes, the lower-cased content type and
    the bytes) and the social profiles of the page; the candidates
    behind it are not requested. *)
Theorem X7_first_accepted_candidate_wins
        (targetUrl : string) (n n0 n1 : Net World) (sp : SocialProfiles)
        (candidates pre post : list Candidate) (c : Candidate)
        (res : Response) (body : string) :
  reachesValidation World http_get cheerio_load targetUrl n sp candidates n0 ->
  JS.sort byScoreDesc candidates = (pre ++ c :: post)%list ->
  softlyRejected World http_get n0 pre n1 ->
  fst (http_get (cand_url c) (net_world n1)) = Responded res ->
  res_ok res = true ->
  acceptedContentType (res_contentType res) = true ->
  res_body res = Some body ->
  Z.of_nat (String.length body) < MAX_LOGO_BYTES ->
  let n2 := afterRequest World http_get (cand_url c) n1 in
  fetchCompanyLogo World http_get cheerio_load targetUrl n
  = (Ret (successResult
            (mkLogo (cand_url c) (Z.of_nat (String.length body))
               (JS.toLowerCase (JS.orEmpty (res_contentType res))) body)
            sp),
     n2)
  /\ net_requests n2 = (net_requests n0 ++ map cand_url (pre ++ [c]))%list.
Proof.
  intros Hreach Hsort Hpre Hget Hok Hct Hbody Hlt n2.
  destruct (validateCandidates_softlyRejected World http_get sp _ _ _
              (c :: post) Hpre) as [Hloop Hreq].
  rewrite (fetchCompanyLogo_validates _ _ _ _ _ _ _ _ Hreach), Hsort, Hloop.
  rewrite validateCandidates_step. cbv zeta.
  unfold validatorSpec. rewrite Hget, Hok, Hct, Hbody. cbn [negb].
  unfold MAX_LOGO_BYTES in Hlt. apply Z.ltb_lt in Hlt. rewrite Hlt.
  split; [reflexivity|].
  unfold n2, afterRequest. cbn [net_requests].
  now rewrite Hreq, map_app, app_assoc.
Qed.

(** A success of the loop is the image of its last request. *)
Lemma validateCandidates_success (sp : SocialProfiles)
      (candidates : list Candidate) (n n' : Net World) (r : ExtractionResult) :
  validateCandidates World http_get sp candidates n = (Ret (Some r), n') ->
  success r = true ->
  exists (l : Logo) (before : Net World) (images : list string),
    r = successResult l sp
    /\ In (logo_url l) (map cand_url candidates)
    /\ net_requests before = (net_requests n ++ images)%list
    /\ n' = afterRequest World http_get (logo_url l) before
    /\ validatorSpec (logo_url l)
         (fst (http_get (logo_url l) (net_world before))) = Accepted l.
Proof.
  revert n. induction candidates as [|c rest IH]; intros n Hrun Hsucc.
  - discriminate.
  - rewrite validateCandidates_step in Hrun. cbv zeta in Hrun.
    destruct (validatorSpec _ _) as [l|reason size] eqn:Hv.
    + inversion Hrun; subst r n'.
      destruct (validatorSpec_accepted_inv _ _ _ Hv)
        as (_ & _ & _ & _ & Hurl & _).
      exists l, n, []. rewrite Hurl, app_nil_r.
      repeat split; auto. now left.
    + destruct (String.eqb reason "too_large").
      * inversion Hrun; subst r. discriminate.
      * destruct (IH _ Hrun Hsucc) as (l & before & images & Hr & Hin & Hreq & Hn & Hl).
        exists l, before, (cand_url c :: images).
        repeat split; auto.
        -- now right.
        -- rewrite Hreq. unfold afterRequest. cbn [net_requests].
           now rewrite <- app_assoc.
Qed.

(** A run that ends with a success or with the failure for the size
    has received the page, found candidates, and ends with the decision
    of the loop. *)
Lemma fetchCompanyLogo_decided
      (targetUrl : string) (n n' : Net World) (r : ExtractionResult) :
  fetchCompanyLogo World http_get cheerio_load targetUrl n = (Ret r, n') ->
  success r = true \/ message r = "logo greater than image limit" ->
  exists (parsedUrl : URL) (html : string) (candidates : list Candidate)
         (n0 : Net World),
    URL_new targetUrl = Some parsedUrl
    /\ net_requests n0 = (net_requests n ++ [URL_toString parsedUrl])%list
    /\ validateCandidates World http_get
         (extractSocialProfiles (cheerio_load html) parsedUrl) candidates n0
       = (Ret (Some r), n').
Proof.
  intros Hrun Hdec.
  assert (Hno : forall sp x, (Ret (couldNotIdentify sp), x) = (Ret r, n') -> False).
  { intros sp x Hx. inversion Hx; subst r. destruct Hdec; discriminate. }
  destruct (notBlank targetUrl) eqn:Hnb.
  2:{ unfold fetchCompanyLogo in Hrun. unfold notBlank in Hnb.
      apply negb_false_iff in Hnb. rewrite Hnb in Hrun.
      inversion Hrun; subst r. destruct Hdec; discriminate. }
  destruct (URL_new targetUrl) as [parsedUrl|] eqn:Hurl.
  2:{ unfold fetchCompanyLogo in Hrun. unfold notBlank in Hnb.
      apply negb_true_iff in Hnb. rewrite Hnb, Hurl in Hrun.
      inversion Hrun; subst r. destruct Hdec; discriminate. }
  rewrite (fetchCompanyLogo_page _ _ _ Hnb Hurl) in Hrun.
  unfold tryCatch, fetchAndExtract, bind at 1, fetch in Hrun.
  destruct (http_get (URL_toString parsedUrl) (net_world n)) as [[|pageRes] w].
  { now apply Hno in Hrun. }
  destruct (res_ok pageRes); cbn [negb] in Hrun; [|now apply Hno in Hrun].
  unfold bind at 1, readBody in Hrun.
  destruct (res_body pageRes) as [html|]; [|now apply Hno in Hrun].
  unfold ret at 1, bind at 1, liftExc in Hrun.
  destruct (scanImages _ _ _) as [[|c cs]|e].
  1,3: now apply Hno in Hrun.
  unfold bind in Hrun.
  destruct (validateCandidates _ _ _ _ _) as [[[r0|]|e] n0] eqn:Hloop.
  2,3: now apply Hno in Hrun.
  inversion Hrun; subst r0 n0.
  exists parsedUrl, html, (JS.sort byScoreDesc (c :: cs)),
    (mkNet w (net_requests n ++ [URL_toString parsedUrl])).
  split; [reflexivity|]. split; [reflexivity | exact Hloop].
Qed.

(** X8: a success carries the image of the last request of the run:
    the logo is the body of the response to the request for its URL,
    a successful response; its content type is the lower-cased header
    of that response; its size is the number of its bytes, and is below
    2 MiB.  The first request of the run was the one for the page. *)
Theorem X8_success_carries_the_image_last_requested
        (targetUrl : string) (n n' : Net World) (r : ExtractionResult) :
  fetchCompanyLogo World http_get cheerio_load targetUrl n = (Ret r, n') ->
  success r = true ->
  exists (l : Logo) (sp : SocialProfiles) (parsedUrl : URL)
         (before : Net World) (images : list string) (res : Response),
    r = successResult l sp
    /\ URL_new targetUrl = Some parsedUrl
    /\ net_requests before
       = (net_requests n ++ URL_toString parsedUrl :: images)%list
    /\ n' = afterRequest World http_get (logo_url l) before
    /\ fst (http_get (logo_url l) (net_world before)) = Responded res
    /\ res_ok res = true
    /\ res_body res = Some (logo_data l)
    /\ logo_contentType l = JS.toLowerCase (JS.orEmpty (res_contentType res))
    /\ logo_size l = Z.of_nat (String.length (logo_data l))
    /\ 0 <= logo_size l < MAX_LOGO_BYTES.
Proof.
  intros Hrun Hsucc.
  destruct (fetchCompanyLogo_decided _ _ _ _ Hrun (or_introl Hsucc))
    as (parsedUrl & html & candidates & n0 & Hurl & Hpage & Hloop).
  destruct (validateCandidates_success _ _ _ _ _ Hloop Hsucc)
    as (l & before & images & Hr & _ & Hreq & Hn & Hl).
  destruct (validatorSpec_accepted_inv _ _ _ Hl)
    as (res & Hget & Hok & Hbody & _ & Hct & _ & Hsize & Hbound).
  exists l, (extractSocialProfiles (cheerio_load html) parsedUrl), parsedUrl,
    before, images, res.
  repeat split; try assumption; try apply Hbound.
  now rewrite Hreq, Hpage, <- app_assoc.
Qed.

End Outcomes.

(** The three images of the page [Sites.threeImagesPage] give three
    candidates, with the scores 0, 4 and 15 in document order. *)
Lemma X3_witness :
  @scanImages Mini.api Sites.shop
    (select_img (Mini.load Sites.threeImagesPage)) []
  = Ret Sites.threeCandidates
  /\ map candidateScore
       (filter qualifies (select_img (Mini.load Sites.threeImagesPage)))
     = [0; 4; 15].
Proof.
  destruct (@X3_scan_collects_the_qualifying_images Mini.api Sites.shop
              (select_img (Mini.load Sites.threeImagesPage)) [])
    as (Hscan & Hscores & _).
  split.
  - rewrite Hscan. vm_compute. reflexivity.
  - rewrite <- Hscores; vm_compute; reflexivity.
Defined.

(** The object for the logo of the site [MoreSites.tiny]. *)
Lemma X4_witness :
  exists lc : LogoCheck,
    fst (downloadAndValidateImage Mini.Web Mini.get
           "https://shop.example/logo.png" (mkNet MoreSites.tiny []))
    = Ret lc
    /\ lc_ok lc = true
    /\ lc_logo lc
       = Some (mkLogo "https://shop.example/logo.png" 3 "image/png" "Man")
    /\ lc_ok lc && negb (isTrue (lc_tooLarge lc)) && isSome (lc_logo lc) = true.
Proof.
  destruct (X4_result_object_is_consistent Mini.Web Mini.get
              "https://shop.example/logo.png" (mkNet MoreSites.tiny []))
    as (lc & Hrun & _ & _ & _ & Htest & _).
  exists lc. rewrite Htest, Hrun. cbn [fst]. split; [reflexivity|].
  vm_compute in Hrun. inversion Hrun. repeat split.
Defined.

(** The site [MoreSites.notFound] answers with an error status: its
    page, which has a social link and a logo, is not looked at. *)
Lemma X5_witness :
  Mini.run MoreSites.notFound "https://shop.example"
  = (Ret (couldNotIdentify emptySocialProfiles),
     mkNet MoreSites.notFound ["https://shop.example/"]).
Proof.
  exact (@X5_unusable_page_ends_the_run Mini.api Mini.Web Mini.get Mini.load
           "https://shop.example" (mkNet MoreSites.notFound []) Sites.shop
           eq_refl eq_refl (or_introl eq_refl)).
Defined.

(** The page of [MoreSites.noLogo] has a link to x.com, an image with
    a data URL and a GIF: the result has the link and no logo. *)
Lemma X6_witness :
  Mini.run MoreSites.noLogo "https://shop.example"
  = (Ret (couldNotIdentify
            (sp_set emptySocialProfiles twitter (Some "https://x.com/acme"))),
     mkNet MoreSites.noLogo ["https://shop.example/"]).
Proof.
  exact (@X6_profiles_without_a_candidate Mini.api Mini.Web Mini.get Mini.load
           "https://shop.example" (mkNet MoreSites.noLogo []) Sites.shop
           (Mini.page MoreSites.noLogoPage) MoreSites.noLogoPage
           eq_refl eq_refl eq_refl eq_refl eq_refl eq_refl).
Defined.

(** On the site [MoreSites.fallback] the logo, the best candidate, is
    served as an HTML page; the brand image, the second, is accepted;
    the photo is not requested. *)
Lemma X7_witness :
  Mini.run MoreSites.fallback "https://shop.example"
  = (Ret (successResult
            (mkLogo "https://shop.example/img/brand.png" 10 "image/png"
               "xxxxxxxxxx")
            emptySocialProfiles),
     mkNet MoreSites.fallback
       [ "https://shop.example/";
         "https://shop.example/img/logo.png";
         "https://shop.example/img/brand.png" ]).
Proof.
  pose (n := @mkNet Mini.Web MoreSites.fallback []).
  pose (brandC := mkCandidate "https://shop.example/img/brand.png" 4).
  pose (logoC := mkCandidate "https://shop.example/img/logo.png" 15).
  pose (photoC := mkCandidate "https://shop.example/img/photo.png" 0).
  pose (n0 := afterRequest Mini.Web Mini.get "https://shop.example/" n).
  pose (n1 := afterRequest Mini.Web Mini.get (cand_url logoC) n0).
  assert (Hreach : @reachesValidation Mini.api Mini.Web Mini.get Mini.load
                     "https://shop.example" n emptySocialProfiles
                     [brandC; logoC; photoC] n0).
  { eexists Sites.shop, _, _.
    repeat split; try reflexivity; discriminate. }
  assert (Hsoft : softlyRejected Mini.Web Mini.get n0 [logoC] n1).
  { eapply softly_cons; [apply downloadAndValidateImage_refines | | apply softly_nil].
    exists "unsupported_type".
    split; [right; left; reflexivity | vm_compute; reflexivity]. }
  exact (proj1 (@X7_first_accepted_candidate_wins Mini.api Mini.Web Mini.get
                  Mini.load "https://shop.example" n n0 n1 emptySocialProfiles
                  [brandC; logoC; photoC] [logoC] [photoC] brandC
                  (Mini.image "image/png" 10) "xxxxxxxxxx"
                  Hreach eq_refl Hsoft eq_refl eq_refl eq_refl eq_refl eq_refl)).
Defined.

(** On the site [MoreSites.tiny] the logo is the three bytes of the
    response to the second request. *)
Lemma X8_witness :
  Mini.run MoreSites.tiny "https://shop.example"
  = (Ret (successResult (mkLogo "https://shop.example/logo.png" 3 "image/png" "Man")
            emptySocialProfiles),
     mkNet MoreSites.tiny
       ["https://shop.example/"; "https://shop.example/logo.png"])
  /\ exists (l : Logo) (sp : SocialProfiles) (parsedUrl : Mini.Url)
            (before : Net Mini.Web) (images : list string) (res : Response),
      successResult (mkLogo "https://shop.example/logo.png" 3 "image/png" "Man")
        emptySocialProfiles
      = successResult l sp
      /\ Mini.new "https://shop.example" = Some parsedUrl
      /\ net_requests before = ([] ++ Mini.toString parsedUrl :: images)%list
      /\ mkNet MoreSites.tiny
           ["https://shop.example/"; "https://shop.example/logo.png"]
         = afterRequest Mini.Web Mini.get (logo_url l) before
      /\ fst (Mini.get (logo_url l) (net_world before)) = Responded res
      /\ res_ok res = true
      /\ res_body res = Some (logo_data l)
      /\ logo_contentType l = JS.toLowerCase (JS.orEmpty (res_contentType res))
      /\ logo_size l = Z.of_nat (String.length (logo_data l))
      /\ 0 <= logo_size l < MAX_LOGO_BYTES.
Proof.
  split; [reflexivity|].
  exact (@X8_success_carries_the_image_last_requested Mini.api Mini.Web
           Mini.get Mini.load "https://shop.example" (mkNet MoreSites.tiny [])
           (mkNet MoreSites.tiny
              ["https://shop.example/"; "https://shop.example/logo.png"])
           (successResult
              (mkLogo "https://shop.example/logo.png" 3 "image/png" "Man")
              emptySocialProfiles)
           eq_refl eq_refl).
Defined.

(* ------------------------------------------------------------------ *)
(** ** What the social profiles hold *)

(** Two texts that end one text: the shorter ends the longer. *)
Lemma common_suffixes (q1 q2 d1 d2 : string) :
  (q1 ++ d1 = q2 ++ d2)%string ->
  JS.endsWith d1 d2 = true \/ JS.endsWith d2 d1 = true.
Proof.
  revert q2. induction q1 as [|a q1 IH]; intros q2 H.
  - left. apply endsWith_iff. exists q2. exact H.
  - destruct q2 as [|b q2].
    + right. apply endsWith_iff. exists (String a q1). now rewrite H.
    + inversion H. eauto.
Qed.

(** A host name that matches a domain ends with it. *)
Lemma hostMatches_suffix (hostname : string) (domains : list string) :
  hostMatches hostname domains = true ->
  exists domain q, In domain domains /\ hostname = (q ++ domain)%string.
Proof.
  intros H. apply hostMatches_iff in H as (domain & Hin & [->|[q ->]]).
  - now exists domain, "".
  - exists domain, (q ++ ".")%string. split; [exact Hin|].
    now rewrite append_assoc.
Qed.

(** No domain of a platform ends with a domain of another one. *)
Lemma domains_apart (k1 k2 : Platform) (d1 d2 : string) :
  In d1 (domainsOf k1) -> In d2 (domainsOf k2) ->
  JS.endsWith d1 d2 = true -> k1 = k2.
Proof.
  destruct k1, k2; try reflexivity; cbn [domainsOf lookupDomains SOCIAL_DOMAINS
    Platform_eqb In];
    intros H1 H2 H;
    repeat match goal with
           | Hx : _ \/ _ |- _ => destruct Hx as [Hx|Hx]
           | Hx : False |- _ => destruct Hx
           | Hx : _ = d1 |- _ => subst d1
           | Hx : _ = d2 |- _ => subst d2
           end;
    vm_compute in H; discriminate H.
Qed.

(** A host name matches the domains of one platform at most. *)
Lemma hostMatches_one_platform (hostname : string) (k1 k2 : Platform) :
  hostMatches hostname (domainsOf k1) = true ->
  hostMatches hostname (domainsOf k2) = true ->
  k1 = k2.
Proof.
  intros H1 H2.
  apply hostMatches_suffix in H1 as (d1 & q1 & Hin1 & Hq1).
  apply hostMatches_suffix in H2 as (d2 & q2 & Hin2 & Hq2).
  rewrite Hq1 in Hq2.
  destruct (common_suffixes _ _ _ _ Hq2) as [H|H].
  - exact (domains_apart k1 k2 d1 d2 Hin1 Hin2 H).
  - symmetry. exact (domains_apart k2 k1 d2 d1 Hin2 Hin1 H).
Qed.

Section Profiles.
Context {api : URLApi}.

(** A field that the traversal of the anchors has filled was filled
    before, or is the match of one of the anchors. *)
Lemma visitAnchors_sound (baseUrl : URL) (key : Platform) (absolute : string)
      (anchors : list Element) (found : SocialProfiles) :
  sp_get (fold_left (visitAnchor baseUrl) anchors found) key = Some absolute ->
  sp_get found key = Some absolute
  \/ exists el, In el anchors /\ anchorMatch baseUrl key el = Some absolute.
Proof.
  revert found. induction anchors as [|el rest IH]; intros found H.
  - now left.
  - cbn [fold_left] in H. destruct (IH _ H) as [Hnow|(el' & Hin & Hm)].
    + rewrite visitAnchor_get in Hnow.
      destruct (JS.truthy (sp_get found key)); [now left|].
      destruct (anchorMatch baseUrl key el) as [a|] eqn:Hm; [|now left].
      right. exists el. split; [now left | congruence].
    + right. exists el'. split; [now right | exact Hm].
Qed.

(** What the match of an anchor says of the anchor. *)
Lemma anchorMatch_inv (baseUrl : URL) (key : Platform) (el : Element)
      (absolute : string) :
  anchorMatch baseUrl key el = Some absolute ->
  exists (href : string) (u u' : URL),
    attr el "href" = Some href
    /\ href <> ""
    /\ URL_new_base href baseUrl = Some u
    /\ absolute = URL_toString u
    /\ URL_new absolute = Some u'
    /\ hostMatches (JS.toLowerCase (URL_hostname u')) (domainsOf key) = true.
Proof.
  unfold anchorMatch, anchorTarget. intros Hm.
  destruct (attr el "href") as [href|] eqn:Hattr; [|discriminate].
  destruct (JS.truthy (Some href)) eqn:Htruthy; [|discriminate].
  unfold JS.orEmpty in Hm. rewrite Htruthy in Hm.
  destruct (URL_new_base href baseUrl) as [u|] eqn:Hu; [|discriminate].
  destruct (URL_new (URL_toString u)) as [u'|] eqn:Hu'; [|discriminate].
  destruct (hostMatches _ _) eqn:Hhost; [|discriminate].
  inversion Hm; subst absolute.
  exists href, u, u'. repeat split; auto.
  intros ->. discriminate.
Qed.

(** A field that is filled holds the match of an anchor of the page. *)
Lemma extractSocialProfiles_matched (doc : Document) (baseUrl : URL)
      (key : Platform) (absolute : string) :
  sp_get (extractSocialProfiles doc baseUrl) key = Some absolute ->
  exists el, In el (select_a_href doc)
             /\ anchorMatch baseUrl key el = Some absolute.
Proof.
  intros H. unfold extractSocialProfiles in H.
  apply visitAnchors_sound in H as [H|H]; [now destruct key | exact H].
Qed.

(** X9: a field of the social profiles of a page is the field of its
    first part when that one is filled, and the field of the rest of
    the page otherwise: what follows on a page never changes a profile
    that was found.  (Given that the empty string is not a URL.) *)
Theorem X9_profiles_of_a_longer_page
        (doc more : Document) (baseUrl : URL) (key : Platform) :
  URL_new "" = None ->
  sp_get (extractSocialProfiles (doc ++ more)%list baseUrl) key
  = match sp_get (extractSocialProfiles doc baseUrl) key with
    | Some found => Some found
    | None => sp_get (extractSocialProfiles more baseUrl) key
    end.
Proof.
  intros Hempty. rewrite !(extractSocialProfiles_get Hempty).
  unfold select_a_href. rewrite filter_app. apply firstMatch_app.
Qed.

(** X10: a social profile is never invented: a field that is filled
    holds the absolute URL of an anchor of the page, an [a] element
    with a non-empty href that resolves against the base; that URL
    parses, and its lower-cased host name is a domain of the platform
    of the field or ends with a dot followed by one. *)
Theorem X10_profile_is_a_matching_link_of_the_page
        (doc : Document) (baseUrl : URL) (key : Platform) (absolute : string) :
  sp_get (extractSocialProfiles doc baseUrl) key = Some absolute ->
  exists (el : Element) (href : string) (u u' : URL),
    In el doc
    /\ tagName el = "a"
    /\ attr el "href" = Some href
    /\ href <> ""
    /\ URL_new_base href baseUrl = Some u
    /\ absolute = URL_toString u
    /\ URL_new absolute = Some u'
    /\ hostMatches (JS.toLowerCase (URL_hostname u')) (domainsOf key) = true.
Proof.
  intros H.
  apply extractSocialProfiles_matched in H as (el & Hin & Hm).
  unfold select_a_href in Hin. apply filter_In in Hin as [Hdoc Hsel].
  apply andb_true_iff in Hsel as [Htag _]. apply String.eqb_eq in Htag.
  apply anchorMatch_inv in Hm as (href & u & u' & Hattr & Hne & Hu & Habs & Hu' & Hhost).
  exists el, href, u, u'. repeat split; assumption.
Qed.

(** X11: a host name matches the domains of one platform at most, so
    one link is never filed under two platforms: the fields of two
    platforms never hold the same URL. *)
Theorem X11_no_link_under_two_platforms
        (doc : Document) (baseUrl : URL) (k1 k2 : Platform) (absolute : string) :
  k1 <> k2 ->
  sp_get (extractSocialProfiles doc baseUrl) k1 = Some absolute ->
  sp_get (extractSocialProfiles doc baseUrl) k2 <> Some absolute.
Proof.
  intros Hne H1 H2.
  apply extractSocialProfiles_matched in H1 as (el1 & _ & H1).
  apply extractSocialProfiles_matched in H2 as (el2 & _ & H2).
  apply anchorMatch_inv in H1 as (_ & _ & u1 & _ & _ & _ & _ & Hu1 & Hm1).
  apply anchorMatch_inv in H2 as (_ & _ & u2 & _ & _ & _ & _ & Hu2 & Hm2).
  rewrite Hu1 in Hu2. inversion Hu2; subst u2.
  exact (Hne (hostMatches_one_platform _ _ _ Hm1 Hm2)).
Qed.

End Profiles.

(** The two halves of a page: the facebook field comes from the first
    half, which has a link to m.facebook.com, and the youtube field
    from the second. *)
Lemma X9_witness :
  let doc := Mini.load MoreSites.firstHalf in
  let more := Mini.load MoreSites.secondHalf in
  sp_get (@extractSocialProfiles Mini.api (doc ++ more)%list Sites.shop) facebook
  = Some "https://m.facebook.com/acme"
  /\ sp_get (@extractSocialProfiles Mini.api (doc ++ more)%list Sites.shop) youtube
     = Some "https://youtu.be/acme".
Proof.
  intros doc more. split.
  - rewrite (@X9_profiles_of_a_longer_page Mini.api doc more Sites.shop
               facebook eq_refl).
    vm_compute. reflexivity.
  - rewrite (@X9_profiles_of_a_longer_page Mini.api doc more Sites.shop
               youtube eq_refl).
    vm_compute. reflexivity.
Defined.

(** The twitter field of the page [Sites.socialPage] is its link to
    x.com. *)
Lemma X10_witness :
  exists (el : Element) (href : string) (u u' : Mini.Url),
    In el (Mini.load Sites.socialPage)
    /\ tagName el = "a"
    /\ attr el "href" = Some href
    /\ href <> ""
    /\ Mini.new_base href Sites.shop = Some u
    /\ "https://x.com/acme" = Mini.toString u
    /\ Mini.new "https://x.com/acme" = Some u'
    /\ hostMatches (JS.toLowerCase (Mini.hostname u')) (domainsOf twitter) = true.
Proof.
  exact (@X10_profile_is_a_matching_link_of_the_page Mini.api
           (Mini.load Sites.socialPage) Sites.shop twitter "https://x.com/acme"
           eq_refl).
Defined.

(** On the page [Sites.socialPage] the link that fills the facebook
    field is not the one of the twitter field. *)
Lemma X11_witness :
  sp_get (@extractSocialProfiles Mini.api (Mini.load Sites.socialPage) Sites.shop)
         facebook
  = Some "https://m.facebook.com/acme"
  /\ sp_get (@extractSocialProfiles Mini.api (Mini.load Sites.socialPage)
               Sites.shop) twitter
     <> Some "https://m.facebook.com/acme".
Proof.
  split; [reflexivity|].
  apply (@X11_no_link_under_two_platforms Mini.api (Mini.load Sites.socialPage)
           Sites.shop facebook twitter "https://m.facebook.com/acme").
  - discriminate.
  - reflexivity.
Defined.

(* ------------------------------------------------------------------ *)
(** ** The base-64 text of a buffer *)

Module Base64Facts.
Import Base64.

(** Texts three characters at a time. *)
Lemma string_ind3 (P : string -> Prop) :
  P EmptyString ->
  (forall a, P (String a EmptyString)) ->
  (forall a b, P (String a (String b EmptyString))) ->
  (forall a b c rest, P rest -> P (String a (String b (String c rest)))) ->
  forall s, P s.
Proof.
  intros H0 H1 H2 H3.
  assert (H : forall s, P s /\ (forall a, P (String a s))
                        /\ (forall a b, P (String a (String b s)))).
  { induction s as [|c s (IHa & IHb & IHc)]; repeat split; auto. }
  intros s. apply H.
Qed.

(** The code of a digit. *)
Lemma digit_code (n : nat) :
  (n < 64)%nat ->
  nat_of_ascii (digit n)
  = (if n <? 26 then 65 + n
     else if n <? 52 then 71 + n
     else if n <? 62 then n - 4
     else if n =? 62 then 43 else 47)%nat.
Proof.
  intros Hn. unfold digit.
  destruct (Nat.ltb_spec n 26); [apply nat_ascii_embedding; lia|].
  destruct (Nat.ltb_spec n 52);
    [rewrite nat_ascii_embedding by lia; lia|].
  destruct (Nat.ltb_spec n 62);
    [rewrite nat_ascii_embedding by lia; lia|].
  destruct (Nat.eqb_spec n 62); reflexivity.
Qed.

Lemma digit_inj (n m : nat) :
  (n < 64)%nat -> (m < 64)%nat -> digit n = digit m -> n = m.
Proof.
  intros Hn Hm H. apply (f_equal nat_of_ascii) in H.
  rewrite !digit_code in H by assumption.
  destruct (Nat.ltb_spec n 26), (Nat.ltb_spec n 52); try lia;
    destruct (Nat.ltb_spec n 62); try lia;
    destruct (Nat.eqb_spec n 62); try lia;
    destruct (Nat.ltb_spec m 26), (Nat.ltb_spec m 52); try lia;
    destruct (Nat.ltb_spec m 62); try lia;
    destruct (Nat.eqb_spec m 62); lia.
Qed.

(** A digit larger than 63 is read as 63. *)
Lemma digit_63 (n : nat) : digit n = digit (Nat.min n 63).
Proof.
  destruct (Nat.le_gt_cases n 63) as [H|H].
  - now rewrite Nat.min_l.
  - rewrite Nat.min_r by lia. unfold digit.
    destruct (Nat.ltb_spec n 26); [lia|].
    destruct (Nat.ltb_spec n 52); [lia|].
    destruct (Nat.ltb_spec n 62); [lia|].
    destruct (Nat.eqb_spec n 62); [lia|]. reflexivity.
Qed.

Lemma digit_not_pad (n : nat) : digit n <> pad.
Proof.
  rewrite digit_63. intros H. apply (f_equal nat_of_ascii) in H.
  rewrite digit_code in H by lia.
  change (nat_of_ascii pad) with 61%nat in H.
  destruct (Nat.ltb_spec (Nat.min n 63) 26), (Nat.ltb_spec (Nat.min n 63) 52),
    (Nat.ltb_spec (Nat.min n 63) 62), (Nat.eqb_spec (Nat.min n 63) 62); lia.
Qed.

Lemma isDigitOrPad_iff (c : ascii) :
  isDigitOrPad c = true
  <-> (65 <= nat_of_ascii c <= 90 \/ 97 <= nat_of_ascii c <= 122
       \/ 48 <= nat_of_ascii c <= 57 \/ nat_of_ascii c = 43
       \/ nat_of_ascii c = 47 \/ nat_of_ascii c = 61)%nat.
Proof.
  unfold isDigitOrPad. cbv zeta.
  rewrite !orb_true_iff, !andb_true_iff, !Nat.leb_le, !Nat.eqb_eq. tauto.
Qed.

Lemma digit_isDigitOrPad (n : nat) : isDigitOrPad (digit n) = true.
Proof.
  rewrite digit_63. apply isDigitOrPad_iff. rewrite digit_code by lia.
  set (m := Nat.min n 63). assert (Hm : (m <= 63)%nat) by (unfold m; lia).
  destruct (Nat.ltb_spec m 26); [lia|].
  destruct (Nat.ltb_spec m 52); [lia|].
  destruct (Nat.ltb_spec m 62); [lia|].
  destruct (Nat.eqb_spec m 62); lia.
Qed.

(** The bytes of a group of digits. *)
Lemma byte_eq (a b : ascii) : nat_of_ascii a = nat_of_ascii b -> a = b.
Proof.
  intros H. rewrite <- (ascii_nat_embedding a), <- (ascii_nat_embedding b).
  now rewrite H.
Qed.

Lemma byte_lt (a : ascii) : (nat_of_ascii a < 256)%nat.
Proof. apply nat_ascii_bounded. Qed.

Lemma quantum_1 (a a' : ascii) :
  let x := nat_of_ascii a in
  let x' := nat_of_ascii a' in
  digit (x / 4) = digit (x' / 4) ->
  digit (x mod 4 * 16) = digit (x' mod 4 * 16) ->
  a = a'.
Proof.
  intros x x' H1 H2.
  pose proof (byte_lt a). pose proof (byte_lt a'). fold x in H. fold x' in H0.
  pose proof (Nat.div_mod_eq x 4). pose proof (Nat.div_mod_eq x' 4).
  pose proof (Nat.mod_upper_bound x 4 ltac:(lia)).
  pose proof (Nat.mod_upper_bound x' 4 ltac:(lia)).
  apply digit_inj in H1; [|lia..]. apply digit_inj in H2; [|lia..].
  apply byte_eq. fold x x'. lia.
Qed.

Lemma quantum_2 (a b a' b' : ascii) :
  let x := nat_of_ascii a in
  let y := nat_of_ascii b in
  let x' := nat_of_ascii a' in
  let y' := nat_of_ascii b' in
  digit (x / 4) = digit (x' / 4) ->
  digit (x mod 4 * 16 + y / 16) = digit (x' mod 4 * 16 + y' / 16) ->
  digit (y mod 16 * 4) = digit (y' mod 16 * 4) ->
  a = a' /\ b = b'.
Proof.
  intros x y x' y' H1 H2 H3.
  pose proof (byte_lt a) as Ha. pose proof (byte_lt a') as Ha'.
  pose proof (byte_lt b) as Hb. pose proof (byte_lt b') as Hb'.
  fold x in Ha. fold x' in Ha'. fold y in Hb. fold y' in Hb'.
  pose proof (Nat.div_mod_eq x 4). pose proof (Nat.div_mod_eq x' 4).
  pose proof (Nat.div_mod_eq y 16). pose proof (Nat.div_mod_eq y' 16).
  pose proof (Nat.mod_upper_bound x 4 ltac:(lia)).
  pose proof (Nat.mod_upper_bound x' 4 ltac:(lia)).
  pose proof (Nat.mod_upper_bound y 16 ltac:(lia)).
  pose proof (Nat.mod_upper_bound y' 16 ltac:(lia)).
  apply digit_inj in H1; [|lia..]. apply digit_inj in H2; [|lia..].
  apply digit_inj in H3; [|lia..].
  split; apply byte_eq; fold x x' y y'; lia.
Qed.

Lemma quantum_3 (a b c a' b' c' : ascii) :
  let x := nat_of_ascii a in
  let y := nat_of_ascii b in
  let z := nat_of_ascii c in
  let x' := nat_of_ascii a' in
  let y' := nat_of_ascii b' in
  let z' := nat_of_ascii c' in
  digit (x / 4) = digit (x' / 4) ->
  digit (x mod 4 * 16 + y / 16) = digit (x' mod 4 * 16 + y' / 16) ->
  digit (y mod 16 * 4 + z / 64) = digit (y' mod 16 * 4 + z' / 64) ->
  digit (z mod 64) = digit (z' mod 64) ->
  a = a' /\ b = b' /\ c = c'.
Proof.
  intros x y z x' y' z' H1 H2 H3 H4.
  pose proof (byte_lt a) as Ha. pose proof (byte_lt a') as Ha'.
  pose proof (byte_lt b) as Hb. pose proof (byte_lt b') as Hb'.
  pose proof (byte_lt c) as Hc. pose proof (byte_lt c') as Hc'.
  fold x in Ha. fold x' in Ha'. fold y in Hb. fold y' in Hb'.
  fold z in Hc. fold z' in Hc'.
  pose proof (Nat.div_mod_eq x 4). pose proof (Nat.div_mod_eq x' 4).
  pose proof (Nat.div_mod_eq y 16). pose proof (Nat.div_mod_eq y' 16).
  pose proof (Nat.div_mod_eq z 64). pose proof (Nat.div_mod_eq z' 64).
  pose proof (Nat.mod_upper_bound x 4 ltac:(lia)).
  pose proof (Nat.mod_upper_bound x' 4 ltac:(lia)).
  pose proof (Nat.mod_upper_bound y 16 ltac:(lia)).
  pose proof (Nat.mod_upper_bound y' 16 ltac:(lia)).
  pose proof (Nat.mod_upper_bound z 64 ltac:(lia)).
  pose proof (Nat.mod_upper_bound z' 64 ltac:(lia)).
  apply digit_inj in H1; [|lia..]. apply digit_inj in H2; [|lia..].
  apply digit_inj in H3; [|lia..]. apply digit_inj in H4; [|lia..].
  repeat split; apply byte_eq; fold x x' y y' z z'; lia.
Qed.

(** The equations of the encoding. *)
Lemma encode_1 (a : ascii) :
  encode (String a EmptyString)
  = String (digit (nat_of_ascii a / 4))
      (String (digit (nat_of_ascii a mod 4 * 16))
         (String pad (String pad EmptyString))).
Proof. reflexivity. Qed.

Lemma encode_2 (a b : ascii) :
  encode (String a (String b EmptyString))
  = String (digit (nat_of_ascii a / 4))
      (String (digit (nat_of_ascii a mod 4 * 16 + nat_of_ascii b / 16))
         (String (digit (nat_of_ascii b mod 16 * 4))
            (String pad EmptyString))).
Proof. reflexivity. Qed.

Lemma encode_3 (a b c : ascii) (rest : string) :
  encode (String a (String b (String c rest)))
  = String (digit (nat_of_ascii a / 4))
      (String (digit (nat_of_ascii a mod 4 * 16 + nat_of_ascii b / 16))
         (String (digit (nat_of_ascii b mod 16 * 4 + nat_of_ascii c / 64))
            (String (digit (nat_of_ascii c mod 64)) (encode rest)))).
Proof. reflexivity. Qed.

Lemma String_inj (a b : ascii) (s t : string) :
  String a s = String b t -> a = b /\ s = t.
Proof. intros H. now inversion H. Qed.

Ltac encode_equations :=
  change (encode EmptyString) with EmptyString in *;
  rewrite ?encode_1, ?encode_2, ?encode_3 in *.

(** Two buffers with the same text are the same buffer. *)
Lemma encode_inj (s t : string) : encode s = encode t -> s = t.
Proof.
  revert t. induction s as [|a|a b|a b c rest IH] using string_ind3;
    intros t; induction t as [|a'|a' b'|a' b' c' rest' _] using string_ind3;
    intros H; encode_equations; try discriminate H;
    try reflexivity;
    repeat (apply String_inj in H; destruct H as [? H]);
    try (exfalso;
         match goal with
         | Hp : pad = digit _ |- _ => symmetry in Hp; exact (digit_not_pad _ Hp)
         | Hp : digit _ = pad |- _ => exact (digit_not_pad _ Hp)
         end).
  - match goal with
    | H1 : digit (_ / 4) = _, H2 : digit (_ mod 4 * 16) = _ |- _ =>
        now rewrite (quantum_1 a a' H1 H2)
    end.
  - match goal with
    | H1 : digit (_ / 4) = _, H2 : digit (_ mod 4 * 16 + _) = _,
      H3 : digit (_ mod 16 * 4) = _ |- _ =>
        destruct (quantum_2 a b a' b' H1 H2 H3) as [-> ->]; reflexivity
    end.
  - match goal with
    | H1 : digit (_ / 4) = _, H2 : digit (_ mod 4 * 16 + _) = _,
      H3 : digit (_ mod 16 * 4 + _) = _, H4 : digit (_ mod 64) = _,
      H5 : encode rest = encode rest' |- _ =>
        destruct (quantum_3 a b c a' b' c' H1 H2 H3 H4) as (-> & -> & ->);
        now rewrite (IH rest' H5)
    end.
Qed.

(** Four characters for each group of three bytes, the last group
    filled up. *)
Lemma length_encode (s : string) :
  String.length (encode s) = (4 * ((String.length s + 2) / 3))%nat.
Proof.
  induction s as [|a|a b|a b c rest IH] using string_ind3;
    try reflexivity.
  rewrite encode_3. cbn [String.length]. rewrite IH.
  replace (S (S (S (String.length rest))) + 2)%nat
    with (1 * 3 + (String.length rest + 2))%nat by lia.
  rewrite Nat.div_add_l by lia. lia.
Qed.

Lemma encode_alphabet (s : string) : allChars isDigitOrPad (encode s) = true.
Proof.
  induction s as [|a|a b|a b c rest IH] using string_ind3;
    encode_equations; cbn [allChars];
    rewrite ?digit_isDigitOrPad, ?IH; reflexivity.
Qed.

End Base64Facts.

(* ------------------------------------------------------------------ *)
(** ** The answers of the service *)

(** The serialisation changes the data of the logo only. *)
Lemma serializeResult_fields (r : ExtractionResult) :
  success (serializeResult r) = success r
  /\ message (serializeResult r) = message r
  /\ socialProfiles (serializeResult r) = socialProfiles r
  /\ isSome (logo (serializeResult r)) = isSome (logo r).
Proof.
  unfold serializeResult.
  destruct (success r) eqn:Hs; [|rewrite Hs; auto].
  destruct (logo r) eqn:Hl; cbn; [auto | rewrite Hs, Hl; auto].
Qed.


(** X14: the serialisation loses nothing: two results have the same
    serialisation exactly when they are the same result, since the
    base-64 text of a buffer determines its bytes. *)
Theorem X14_serialization_loses_nothing (r1 r2 : ExtractionResult) :
  serializeResult r1 = serializeResult r2 <-> r1 = r2.
Proof.
  split; [|now intros ->].
  destruct r1 as [s1 m1 l1 p1], r2 as [s2 m2 l2 p2].
  unfold serializeResult. cbn [success message logo socialProfiles].
  destruct s1, s2, l1 as [[u1 z1 c1 d1]|], l2 as [[u2 z2 c2 d2]|];
    cbn [logo_url logo_size logo_contentType logo_data];
    intros H; inversion H; subst; try reflexivity.
  repeat f_equal. now apply Base64Facts.encode_inj.
Qed.

Section Answers.
Context {api : URLApi}.
Variable World : Type.
Variable http_get : string -> World -> FetchOutcome * World.
Variable cheerio_load : string -> Document.

(** The answer for a URL that is not blank. *)
Lemma answerLogo_run (s : string) (n n' : Net World) (r : ExtractionResult) :
  JS.trim s <> "" ->
  fetchCompanyLogo World http_get cheerio_load s n = (Ret r, n') ->
  answerLogo World http_get cheerio_load (Some s) n
  = (Ret (mkHttpResponse 200 (serializeResult r)), n').
Proof.
  intros Hnb Hrun. unfold answerLogo.
  assert (Ht : String.eqb s "" || String.eqb (JS.trim s) "" = false).
  { apply negb_true_iff. change (notBlank s = true).
    rewrite notBlank_trim. apply String.eqb_neq in Hnb. now rewrite Hnb. }
  rewrite Ht. unfold bind. now rewrite Hrun.
Qed.

(** The answer for a URL that is missing or blank. *)
Lemma answerLogo_blank (url : option string) (n : Net World) :
  blankUrl url = true ->
  answerLogo World http_get cheerio_load url n
  = (Ret (mkHttpResponse 400 emptyUrlResult), n).
Proof.
  unfold blankUrl, answerLogo. destruct url as [s|]; [|reflexivity].
  intros Hb.
  assert (Ht : String.eqb s "" || String.eqb (JS.trim s) "" = true).
  { apply negb_false_iff. change (notBlank s = false).
    rewrite notBlank_trim. now rewrite Hb. }
  now rewrite Ht.
Qed.



(** X13: every failure of the extraction for a url that is not blank
    is answered with status 200, and its result is the body as it is:
    "Malformed URL", "could not identify logo" and "logo greater than
    image limit" do not change the status. *)
Theorem X13_failures_are_answered_with_status_200
        (route : Route) (req : Request) (s : string) (n n' : Net World)
        (r : ExtractionResult) :
  requestUrl route req = Some s ->
  JS.trim s <> "" ->
  fetchCompanyLogo World http_get cheerio_load s n = (Ret r, n') ->
  success r = false ->
  handle World http_get cheerio_load route req n
  = (Ret (mkHttpResponse 200 r), n').
Proof.
  intros Hurl Hnb Hrun Hfail. unfold handle. cbv zeta. rewrite Hurl.
  rewrite (answerLogo_run s n n' r Hnb Hrun).
  unfold serializeResult. now rewrite Hfail.
Qed.

(** X15: the logo of a success that the service answers with is the
    image of the last request: its data is the base-64 text of the body
    of that response and its size is the number of bytes of that body.
    So the data has four characters (letters, digits, plus, slash and
    the equals sign) for each group of three bytes, and at most
    2796204 characters. *)
Theorem X15_logo_data_is_the_base64_of_the_image
        (route : Route) (req : Request) (n n' : Net World) (resp : HttpResponse) :
  handle World http_get cheerio_load route req n = (Ret resp, n') ->
  success (http_json resp) = true ->
  exists (l : Logo) (body : string) (before : Net World) (res : Response),
    http_status resp = 200
    /\ logo (http_json resp) = Some l
    /\ n' = afterRequest World http_get (logo_url l) before
    /\ fst (http_get (logo_url l) (net_world before)) = Responded res
    /\ res_body res = Some body
    /\ logo_data l = Base64.encode body
    /\ logo_size l = Z.of_nat (String.length body)
    /\ Z.of_nat (String.length (logo_data l)) = 4 * ((logo_size l + 2) / 3)
    /\ Z.of_nat (String.length (logo_data l)) <= MAX_DATA_CHARS
    /\ MAX_DATA_CHARS = 2796204
    /\ allChars Base64.isDigitOrPad (logo_data l) = true.
Proof.
  intros Hrun Hsucc. unfold handle in Hrun. cbv zeta in Hrun.
  destruct (blankUrl (requestUrl route req)) eqn:Hb.
  { rewrite (answerLogo_blank _ n Hb) in Hrun.
    inversion Hrun; subst resp. discriminate. }
  destruct (requestUrl route req) as [s|]; [|discriminate].
  cbn [blankUrl] in Hb. apply String.eqb_neq in Hb.
  destruct (fetchCompanyLogo_result World http_get cheerio_load s n)
    as (r & n1 & Hfetch & _).
  rewrite (answerLogo_run s n n1 r Hb Hfetch) in Hrun.
  inversion Hrun; subst resp n1. cbn [http_json http_status] in *.
  destruct (serializeResult_fields r) as (Hs & _).
  rewrite Hs in Hsucc.
  destruct (fetchCompanyLogo_decided World http_get cheerio_load s n n' r
              Hfetch (or_introl Hsucc))
    as (parsedUrl & html & candidates & n0 & _ & _ & Hloop).
  destruct (validateCandidates_success World http_get _ _ _ _ _ Hloop Hsucc)
    as (l & before & images & -> & _ & _ & Hn & Hl).
  destruct (validatorSpec_accepted_inv _ _ _ Hl)
    as (res & Hget & _ & Hbody & _ & _ & _ & Hsize & Hbound).
  exists (mkLogo (logo_url l) (logo_size l) (logo_contentType l)
            (Base64.encode (logo_data l))), (logo_data l), before, res.
  cbn [serializeResult successResult success logo logo_url logo_size
       logo_data].
  assert (Hlen : Z.of_nat (String.length (Base64.encode (logo_data l)))
                 = 4 * ((logo_size l + 2) / 3)).
  { rewrite Base64Facts.length_encode, Hsize.
    rewrite Nat2Z.inj_mul, Nat2Z.inj_div, Nat2Z.inj_add. reflexivity. }
  repeat split; try assumption; try reflexivity.
  - rewrite Hlen. unfold MAX_DATA_CHARS.
    apply Z.mul_le_mono_nonneg_l; [lia|].
    apply Z.div_le_mono; lia.
  - apply Base64Facts.encode_alphabet.
Qed.

End Answers.

(** A request with the url [not a url] is answered with status 200 and
    the failure "Malformed URL". *)
Lemma X13_witness :
  @handle Mini.api Mini.Web Mini.get Mini.load GetLogo
    (mkRequest (Some "not a url") None) (mkNet Sites.nowhere [])
  = (Ret (mkHttpResponse 200 malformedUrlResult), mkNet Sites.nowhere []).
Proof.
  apply (@X13_failures_are_answered_with_status_200 Mini.api Mini.Web Mini.get
           Mini.load GetLogo (mkRequest (Some "not a url") None) "not a url").
  - reflexivity.
  - discriminate.
  - reflexivity.
  - reflexivity.
Defined.

(** The logo of the site [MoreSites.tiny], the three bytes of the word
    Man, is answered as the four characters TWFu. *)
Lemma X15_witness :
  @handle Mini.api Mini.Web Mini.get Mini.load PostLogo
    (mkRequest None (Some "https://shop.example")) (mkNet MoreSites.tiny [])
  = (Ret (mkHttpResponse 200
            (successResult
               (mkLogo "https://shop.example/logo.png" 3 "image/png" "TWFu")
               emptySocialProfiles)),
     mkNet MoreSites.tiny
       ["https://shop.example/"; "https://shop.example/logo.png"])
  /\ exists (l : Logo) (body : string) (before : Net Mini.Web) (res : Response),
      200 = 200
      /\ Some (mkLogo "https://shop.example/logo.png" 3 "image/png" "TWFu")
         = Some l
      /\ mkNet MoreSites.tiny
           ["https://shop.example/"; "https://shop.example/logo.png"]
         = afterRequest Mini.Web Mini.get (logo_url l) before
      /\ fst (Mini.get (logo_url l) (net_world before)) = Responded res
      /\ res_body res = Some body
      /\ logo_data l = Base64.encode body
      /\ logo_size l = Z.of_nat (String.length body)
      /\ Z.of_nat (String.length (logo_data l)) = 4 * ((logo_size l + 2) / 3)
      /\ Z.of_nat (String.length (logo_data l)) <= MAX_DATA_CHARS
      /\ MAX_DATA_CHARS = 2796204
      /\ allChars Base64.isDigitOrPad (logo_data l) = true.
Proof.
  split; [reflexivity|].
  exact (@X15_logo_data_is_the_base64_of_the_image Mini.api Mini.Web Mini.get
           Mini.load PostLogo (mkRequest None (Some "https://shop.example"))
           (mkNet MoreSites.tiny [])
           (mkNet MoreSites.tiny
              ["https://shop.example/"; "https://shop.example/logo.png"])
           (mkHttpResponse 200
              (successResult
                 (mkLogo "https://shop.example/logo.png" 3 "image/png" "TWFu")
                 emptySocialProfiles))
           eq_refl eq_refl).
Defined.

(* ------------------------------------------------------------------ *)
(** ** Links that are skipped, and the failure for the size *)

Section Skipped.
Context {api : URLApi}.

(** An anchor whose href is empty or does not resolve changes
    nothing. *)
Lemma visitAnchor_skip (baseUrl : URL) (found : SocialProfiles) (el : Element) :
  JS.truthy (attr el "href") = false
  \/ URL_new_base (JS.orEmpty (attr el "href")) baseUrl = None ->
  visitAnchor baseUrl found el = found.
Proof.
  unfold visitAnchor. intros [H|H].
  - now rewrite H.
  - rewrite H. now destruct (JS.truthy _).
Qed.

(** X16: an anchor whose href is empty, or does not resolve to an
    absolute URL against the base, is skipped: the social profiles of
    the page are those of the page without that anchor.  A link that is
    not a URL never breaks the extraction of the others. *)
Theorem X16_broken_link_is_skipped
        (pre post : Document) (el : Element) (baseUrl : URL) :
  JS.truthy (attr el "href") = false
  \/ URL_new_base (JS.orEmpty (attr el "href")) baseUrl = None ->
  extractSocialProfiles (pre ++ el :: post)%list baseUrl
  = extractSocialProfiles (pre ++ post)%list baseUrl.
Proof.
  intros H. unfold extractSocialProfiles, select_a_href.
  rewrite !filter_app. cbn [filter].
  destruct (String.eqb (tagName el) "a" && _); [|reflexivity].
  rewrite !fold_left_app. cbn [fold_left].
  now rewrite (visitAnchor_skip _ _ _ H).
Qed.

End Skipped.

(** The first link of [MoreSites.brokenLinkPage] has a space in its
    host; the profiles are those of the page without it. *)
Lemma X16_witness :
  @extractSocialProfiles Mini.api (Mini.load MoreSites.brokenLinkPage) Sites.shop
  = @extractSocialProfiles Mini.api (Mini.load MoreSites.mendedLinkPage) Sites.shop
  /\ @extractSocialProfiles Mini.api (Mini.load MoreSites.brokenLinkPage)
       Sites.shop
     = sp_set emptySocialProfiles twitter (Some "https://x.com/acme").
Proof.
  pose (el := mkElement "a" [("href", "https://exa mple.com/")]).
  assert (Hdoc : Mini.load MoreSites.brokenLinkPage
                 = ([] ++ el :: Mini.load MoreSites.mendedLinkPage)%list)
    by (vm_compute; reflexivity).
  assert (Hbad : JS.truthy (attr el "href") = false
                 \/ @URL_new_base Mini.api (JS.orEmpty (attr el "href")) Sites.shop
                    = None)
    by (right; vm_compute; reflexivity).
  rewrite Hdoc.
  rewrite (@X16_broken_link_is_skipped Mini.api []
             (Mini.load MoreSites.mendedLinkPage) el Sites.shop Hbad).
  split; [reflexivity | vm_compute; reflexivity].
Defined.

(** What a rejection for the size says of the response. *)
Lemma validatorSpec_too_large_inv (imageUrl reason : string) (o : FetchOutcome)
      (size : option Z) :
  validatorSpec imageUrl o = Rejected reason size ->
  String.eqb reason "too_large" = true ->
  exists (res : Response) (body : string),
    o = Responded res
    /\ res_ok res = true
    /\ acceptedContentType (res_contentType res) = true
    /\ res_body res = Some body
    /\ MAX_LOGO_BYTES <= Z.of_nat (String.length body).
Proof.
  unfold validatorSpec. intros H Hreason.
  destruct o as [|res]; [inversion H; subst; discriminate|].
  destruct (res_ok res) eqn:Hok; cbn [negb] in H;
    [|inversion H; subst; discriminate].
  destruct (acceptedContentType _) eqn:Hct; cbn [negb] in H;
    [|inversion H; subst; discriminate].
  destruct (res_body res) as [body|] eqn:Hbody;
    [|inversion H; subst; discriminate].
  destruct (Z.ltb_spec (Z.of_nat (String.length body)) (2 * 1024 * 1024))
    as [|Hge]; [discriminate|].
  exists res, body. repeat split; auto.
Qed.

Section SizeFailure.
Context {api : URLApi}.
Variable World : Type.
Variable http_get : string -> World -> FetchOutcome * World.
Variable cheerio_load : string -> Document.

(** A failure of the loop for the size is the image of its last
    request. *)
Lemma validateCandidates_too_large (sp : SocialProfiles)
      (candidates : list Candidate) (n n' : Net World) (r : ExtractionResult) :
  validateCandidates World http_get sp candidates n = (Ret (Some r), n') ->
  message r = "logo greater than image limit" ->
  exists (c : Candidate) (before : Net World) (images : list string)
         (res : Response) (body : string),
    r = tooLargeResult sp
    /\ In c candidates
    /\ net_requests before = (net_requests n ++ images)%list
    /\ n' = afterRequest World http_get (cand_url c) before
    /\ fst (http_get (cand_url c) (net_world before)) = Responded res
    /\ res_ok res = true
    /\ acceptedContentType (res_contentType res) = true
    /\ res_body res = Some body
    /\ MAX_LOGO_BYTES <= Z.of_nat (String.length body).
Proof.
  revert n. induction candidates as [|c rest IH]; intros n Hrun Hmsg.
  - discriminate.
  - rewrite validateCandidates_step in Hrun. cbv zeta in Hrun.
    destruct (validatorSpec _ _) as [l|reason size] eqn:Hv.
    + inversion Hrun; subst r. discriminate.
    + destruct (String.eqb reason "too_large") eqn:Hreason.
      * inversion Hrun; subst r n'.
        destruct (validatorSpec_too_large_inv _ _ _ _ Hv Hreason)
          as (res & body & Hget & Hok & Hct & Hbody & Hge).
        exists c, n, [], res, body. rewrite app_nil_r.
        repeat split; auto. now left.
      * destruct (IH _ Hrun Hmsg)
          as (c' & before & images & res & body & Hr & Hin & Hreq & Hrest).
        exists c', before, (cand_url c :: images), res, body.
        split; [exact Hr|]. split; [now right|]. split; [|exact Hrest].
        rewrite Hreq. unfold afterRequest. cbn [net_requests].
        now rewrite <- app_assoc.
Qed.

(** X17: the failure "logo greater than image limit" is returned only
    for an image that is too large: the last request of the run was
    for an image, and its response was successful, of an accepted
    content type, with a body of 2 MiB or more.  The first request of
    the run was the one for the page. *)
Theorem X17_size_failure_reports_an_oversized_image
        (targetUrl : string) (n n' : Net World) (r : ExtractionResult) :
  fetchCompanyLogo World http_get cheerio_load targetUrl n = (Ret r, n') ->
  message r = "logo greater than image limit" ->
  exists (sp : SocialProfiles) (parsedUrl : URL) (imageUrl : string)
         (before : Net World) (images : list string)
         (res : Response) (body : string),
    r = tooLargeResult sp
    /\ URL_new targetUrl = Some parsedUrl
    /\ net_requests before
       = (net_requests n ++ URL_toString parsedUrl :: images)%list
    /\ n' = afterRequest World http_get imageUrl before
    /\ fst (http_get imageUrl (net_world before)) = Responded res
    /\ res_ok res = true
    /\ acceptedContentType (res_contentType res) = true
    /\ res_body res = Some body
    /\ MAX_LOGO_BYTES <= Z.of_nat (String.length body).
Proof.
  intros Hrun Hmsg.
  destruct (fetchCompanyLogo_decided _ _ _ _ _ _ _ Hrun (or_intror Hmsg))
    as (parsedUrl & html & candidates & n0 & Hurl & Hpage & Hloop).
  destruct (validateCandidates_too_large _ _ _ _ _ Hloop Hmsg)
    as (c & before & images & res & body & Hr & _ & Hreq & Hrest).
  exists (extractSocialProfiles (cheerio_load html) parsedUrl), parsedUrl,
    (cand_url c), before, images, res, body.
  split; [exact Hr|]. split; [exact Hurl|]. split; [|exact Hrest].
  now rewrite Hreq, Hpage, <- app_assoc.
Qed.

End SizeFailure.

(** The only image of the site [MoreSites.oversized] is 2 MiB large:
    the run fails for the size, and the response to its last request
    has a body of 2 MiB. *)
Lemma X17_witness :
  exists (sp : SocialProfiles) (parsedUrl : @URL Mini.api) (imageUrl : string)
         (before : Net Mini.Web) (images : list string)
         (res : Response) (body : string),
    tooLargeResult emptySocialProfiles = tooLargeResult sp
    /\ @URL_new Mini.api "https://shop.example" = Some parsedUrl
    /\ net_requests before
       = (net_requests (@mkNet Mini.Web MoreSites.oversized [])
            ++ @URL_toString Mini.api parsedUrl :: images)%list
    /\ afterRequest Mini.Web Mini.get "https://shop.example/logo.png"
         (afterRequest Mini.Web Mini.get "https://shop.example/"
            (mkNet MoreSites.oversized []))
       = afterRequest Mini.Web Mini.get imageUrl before
    /\ fst (Mini.get imageUrl (net_world before)) = Responded res
    /\ res_ok res = true
    /\ acceptedContentType (res_contentType res) = true
    /\ res_body res = Some body
    /\ MAX_LOGO_BYTES <= Z.of_nat (String.length body).
Proof.
  pose (n := @mkNet Mini.Web MoreSites.oversized []).
  pose (c := mkCandidate "https://shop.example/logo.png" 15).
  pose (n0 := afterRequest Mini.Web Mini.get "https://shop.example/" n).
  pose (big := Mini.bytes (Z.to_nat MAX_LOGO_BYTES)).
  assert (Hreach : @reachesValidation Mini.api Mini.Web Mini.get Mini.load
                     "https://shop.example" n emptySocialProfiles [c] n0).
  { eexists Sites.shop, _, _.
    repeat split; try reflexivity; discriminate. }
  assert (Hsize : Z.of_nat (String.length big) = 2097152)
    by (apply (MiniFacts.size_of_image "image/png" MAX_LOGO_BYTES);
        [vm_compute; discriminate | reflexivity]).
  assert (Hge : 2 * 1024 * 1024 <= Z.of_nat (String.length big))
    by (rewrite Hsize; vm_compute; discriminate).
  assert (Hget : fst (Mini.get (cand_url c) (net_world n0))
                 = Responded (Mini.image "image/png" MAX_LOGO_BYTES))
    by reflexivity.
  assert (Hrun : @fetchCompanyLogo Mini.api Mini.Web Mini.get Mini.load
                   "https://shop.example" n
                 = (Ret (tooLargeResult emptySocialProfiles),
                    afterRequest Mini.Web Mini.get (cand_url c) n0)).
  { rewrite (fetchCompanyLogo_validates _ _ _ _ _ _ _ _ Hreach).
    change (JS.sort byScoreDesc [c]) with [c].
    rewrite validateCandidates_step. cbv zeta. rewrite Hget.
    rewrite (validatorSpec_too_large (cand_url c)
               (Mini.image "image/png" MAX_LOGO_BYTES) big
               eq_refl eq_refl eq_refl Hge).
    reflexivity. }
  exact (@X17_size_failure_reports_an_oversized_image Mini.api Mini.Web
           Mini.get Mini.load "https://shop.example" n
           (afterRequest Mini.Web Mini.get (cand_url c) n0)
           (tooLargeResult emptySocialProfiles) Hrun eq_refl).
Defined.

(* ------------------------------------------------------------------ *)
(** ** The requests of a run *)

Lemma length_candidatesOf {api : URLApi} (parsedUrl : URL) (imgs : list Element) :
  (length (candidatesOf parsedUrl imgs) <= length imgs)%nat.
Proof.
  induction imgs as [|el rest IH]; [reflexivity|].
  unfold candidatesOf in *. cbn [flat_map length].
  destruct (URL_new_base _ parsedUrl); cbn [app length]; lia.
Qed.

Section Requests.
Context {api : URLApi}.
Variable World : Type.
Variable http_get : string -> World -> FetchOutcome * World.
Variable cheerio_load : string -> Document.

(** The requests of a run whose page has been received. *)
Lemma fetchCompanyLogo_requests
      (targetUrl : string) (n n' : Net World) (parsedUrl : URL)
      (pageRes : Response) (html : string) (r : ExtractionResult) :
  notBlank targetUrl = true ->
  URL_new targetUrl = Some parsedUrl ->
  fst (http_get (URL_toString parsedUrl) (net_world n)) = Responded pageRes ->
  res_body pageRes = Some html ->
  fetchCompanyLogo World http_get cheerio_load targetUrl n = (Ret r, n') ->
  let imgs := select_img (cheerio_load html) in
  exists images : list string,
    net_requests n' = (net_requests n ++ URL_toString parsedUrl :: images)%list
    /\ (length images <= length imgs)%nat
    /\ forall imageUrl, In imageUrl images ->
         In imageUrl
            (map cand_url (candidatesOf parsedUrl (filter qualifies imgs))).
Proof.
  intros Hnb Hurl Hget Hbody Hrun imgs.
  rewrite (fetchCompanyLogo_page _ _ _ _ _ _ Hnb Hurl) in Hrun.
  unfold tryCatch, fetchAndExtract, bind at 1, fetch in Hrun.
  destruct (http_get (URL_toString parsedUrl) (net_world n)) as [o w].
  cbn [fst] in Hget. subst o.
  assert (Hnone : forall x,
             (x, mkNet w (net_requests n ++ [URL_toString parsedUrl])) = (Ret r, n') ->
             exists images : list string,
               net_requests n'
               = (net_requests n ++ URL_toString parsedUrl :: images)%list
               /\ (length images <= length imgs)%nat
               /\ forall imageUrl, In imageUrl images ->
                    In imageUrl
                       (map cand_url
                          (candidatesOf parsedUrl (filter qualifies imgs)))).
  { intros x Hx. inversion Hx; subst n'. exists []. cbn [net_requests length].
    split; [reflexivity|]. split; [lia|]. intros u []. }
  destruct (res_ok pageRes); cbn [negb] in Hrun; [|now apply Hnone in Hrun].
  unfold bind at 1, readBody in Hrun. rewrite Hbody in Hrun.
  unfold ret at 1, bind at 1, liftExc in Hrun.
  rewrite scanImages_filter in Hrun. fold imgs in Hrun.
  destruct (existsb (unresolvable parsedUrl) imgs); [now apply Hnone in Hrun|].
  cbn [app] in Hrun.
  remember (candidatesOf parsedUrl (filter qualifies imgs)) as cs eqn:Hcs in *.
  assert (Hlen : (length cs <= length imgs)%nat).
  { subst cs.
    pose proof (length_candidatesOf parsedUrl (filter qualifies imgs)).
    pose proof (filter_length_le qualifies imgs). lia. }
  clear Hcs.
  destruct (validateCandidates_total World http_get
              (extractSocialProfiles (cheerio_load html) parsedUrl)
              (JS.sort byScoreDesc cs)
              (mkNet w (net_requests n ++ [URL_toString parsedUrl])))
    as (chosen & n1 & k & Hloop & Hreq & _).
  destruct (sort_byScoreDesc cs) as (Hperm & _).
  destruct cs as [|c cs']; [now apply Hnone in Hrun|].
  unfold bind in Hrun. rewrite Hloop in Hrun.
  assert (Hn : n1 = n')
    by (destruct chosen; inversion Hrun; reflexivity).
  subst n1. clear Hrun Hloop.
  exists (map cand_url (firstn k (JS.sort byScoreDesc (c :: cs')))).
  split; [|split].
  - rewrite Hreq. cbn [net_requests]. now rewrite <- app_assoc.
  - rewrite length_map, length_firstn.
    rewrite <- (Permutation_length Hperm). lia.
  - intros imageUrl Hin. apply in_map_iff in Hin as (c0 & <- & Hin).
    apply in_map. apply (Permutation_in _ (Permutation_sym Hperm)).
    rewrite <- (firstn_skipn k (JS.sort byScoreDesc (c :: cs'))).
    apply in_or_app. now left.
Qed.

(** X18: a run whose page has been received sends the request for the
    page and then at most one request for each image element of the
    page, each for the absolute URL of an image that passes the
    filters: no other URL is requested, and no image is requested when
    the page came with an error status. *)
Theorem X18_at_most_one_request_for_each_image
        (targetUrl : string) (n n' : Net World) (parsedUrl : URL)
        (pageRes : Response) (html : string) (r : ExtractionResult) :
  notBlank targetUrl = true ->
  URL_new targetUrl = Some parsedUrl ->
  fst (http_get (URL_toString parsedUrl) (net_world n)) = Responded pageRes ->
  res_body pageRes = Some html ->
  fetchCompanyLogo World http_get cheerio_load targetUrl n = (Ret r, n') ->
  let imgs := select_img (cheerio_load html) in
  exists images : list string,
    net_requests n' = (net_requests n ++ URL_toString parsedUrl :: images)%list
    /\ (length images <= length imgs)%nat
    /\ (res_ok pageRes = false -> images = [])
    /\ forall imageUrl, In imageUrl images ->
         In imageUrl
            (map cand_url (candidatesOf parsedUrl (filter qualifies imgs))).
Proof.
  intros Hnb Hurl Hget Hbody Hrun imgs.
  destruct (fetchCompanyLogo_requests _ _ _ _ _ _ _ Hnb Hurl Hget Hbody Hrun)
    as (images & Hreq & Hlen & Hin).
  exists images. split; [exact Hreq|]. split; [exact Hlen|].
  split; [|exact Hin].
  intros Hfail.
  assert (Hpage : match fst (http_get (URL_toString parsedUrl) (net_world n)) with
                  | NetworkError => True
                  | Responded p => res_ok p = false \/ res_body p = None
                  end) by (rewrite Hget; now left).
  assert (Hone : net_requests n'
                 = (net_requests n ++ [URL_toString parsedUrl])%list).
  { rewrite (fetchCompanyLogo_page _ _ _ _ _ _ Hnb Hurl) in Hrun.
    unfold tryCatch, fetchAndExtract, bind at 1, fetch in Hrun.
    destruct (http_get (URL_toString parsedUrl) (net_world n)) as [o w].
    cbn [fst] in Hget. subst o. rewrite Hfail in Hrun. cbn [negb] in Hrun.
    inversion Hrun. reflexivity. }
  rewrite Hone in Hreq. apply app_inv_head in Hreq.
  now inversion Hreq.
Qed.

End Requests.

(** The run on the site [MoreSites.fallback], whose page has three
    images, sends two requests for images. *)
Lemma X18_witness :
  let imgs := select_img (Mini.load
    "<img src='/img/brand.png'><img src='/img/logo.png'><img src='/img/photo.png'>") in
  exists images : list string,
    net_requests
      (mkNet MoreSites.fallback
         [ "https://shop.example/";
           "https://shop.example/img/logo.png";
           "https://shop.example/img/brand.png" ])
    = (net_requests (@mkNet Mini.Web MoreSites.fallback [])
         ++ @URL_toString Mini.api Sites.shop :: images)%list
    /\ (length images <= length imgs)%nat
    /\ (res_ok
          (Mini.page
             "<img src='/img/brand.png'><img src='/img/logo.png'><img src='/img/photo.png'>")
        = false -> images = [])
    /\ forall imageUrl, In imageUrl images ->
         In imageUrl
            (map cand_url
               (@candidatesOf Mini.api Sites.shop (filter qualifies imgs))).
Proof.
  assert (Hrun : @fetchCompanyLogo Mini.api Mini.Web Mini.get Mini.load
                   "https://shop.example" (mkNet MoreSites.fallback [])
                 = (Ret (successResult
                           (mkLogo "https://shop.example/img/brand.png" 10
                              "image/png" "xxxxxxxxxx")
                           emptySocialProfiles),
                    mkNet MoreSites.fallback
                      [ "https://shop.example/";
                        "https://shop.example/img/logo.png";
                        "https://shop.example/img/brand.png" ]))
    by (vm_compute; reflexivity).
  exact (@X18_at_most_one_request_for_each_image Mini.api Mini.Web Mini.get
           Mini.load "https://shop.example" (mkNet MoreSites.fallback []) _
           Sites.shop _ _ _ eq_refl eq_refl eq_refl eq_refl Hrun).
Defined.
